(** * uws.js: the connection / group / upgrade state machine

    A shallow embedding of [src/uws.js].  JavaScript objects live in a store
    and are referred to by address, so that closures which capture [this]
    (the [once] wrappers, the deferred close notification, the listeners the
    [Server] constructor installs) observe the object as it is when they run.
    Everything the module does to the outside world (calls into the native
    engine, calls of user supplied functions, operations on transport
    sockets) is appended to a chronological trace. *)

From stdpp Require Import gmap strings list.
From Stdlib Require Import ZArith Lia Ascii.
From Stdlib Require DecimalString.

Local Open Scope Z_scope.
Local Open Scope string_scope.
Local Open Scope list_scope.

(** ** JavaScript values *)

(** Opaque engine handles ([external], group handles, transfer tickets). *)
Abbreviation handle := nat.

(** Which of the five wrapped slots a [once] wrapper resets. *)
Inductive once_kind :=
| OnceMessage | OnceOpen | OnceClose | OncePing | OncePong.

(** Function values.  [===] on functions is reference equality: every
    closure the module creates carries the allocation number it was created
    with. *)
Inductive fn :=
| Noop                                            (* function noop() {} *)
| UserFn (id : nat)                               (* a function of the caller *)
| OnmessageWrap (addr : nat) (f : fn)             (* (message) => f({data: message}) *)
| OncloseWrap (addr : nat) (f : fn)               (* (code, message) => f({code, reason}) *)
| OnceWrap (addr : nat) (k : once_kind) (this : nat) (f : fn).

#[warnings="-register-all"]
Inductive value :=
| VUndefined
| VNull
| VBool (b : bool)
| VNum (n : Z)
| VStr (s : string)
| VFun (f : fn)
| VObj (fields : list (string * value))
| VRef (a : nat)                                  (* a connection object *)
| VError (message : string).                      (* new Error(message) *)

#[global] Instance once_kind_eq_dec : EqDecision once_kind.
Proof. solve_decision. Defined.
#[global] Instance fn_eq_dec : EqDecision fn.
Proof. solve_decision. Defined.

(** ToBoolean.  Numbers are modelled by integers, so NaN does not occur. *)
Definition truthy (v : value) : bool :=
  match v with
  | VUndefined | VNull => false
  | VBool b => b
  | VNum n => negb (Z.eqb n 0)
  | VStr s => negb (String.eqb s "")
  | VFun _ | VObj _ | VRef _ | VError _ => true
  end.

Definition typeof (v : value) : string :=
  match v with
  | VUndefined => "undefined"
  | VNull | VObj _ | VRef _ | VError _ => "object"
  | VBool _ => "boolean"
  | VNum _ => "number"
  | VStr _ => "string"
  | VFun _ => "function"
  end.

Fixpoint assoc (k : string) (l : list (string * value)) : value :=
  match l with
  | [] => VUndefined
  | (k', v) :: l' => if String.eqb k k' then v else assoc k l'
  end.

(** [v.name] for a [v] that is neither null nor undefined. *)
Definition get_prop (v : value) (name : string) : value :=
  match v with
  | VObj fields => assoc name fields
  | _ => VUndefined
  end.

(** ToString, as string concatenation applies it. *)
Definition to_string (v : value) : string :=
  match v with
  | VUndefined => "undefined"
  | VNull => "null"
  | VBool true => "true"
  | VBool false => "false"
  | VNum n => DecimalString.NilZero.string_of_int (Z.to_int n)
  | VStr s => s
  | VFun _ => "function"
  | VObj _ | VRef _ => "[object Object]"
  | VError m => "Error: " +:+ m
  end.

(** ** Module constants *)

Definition EE_ERROR : string :=
  "Registering more than one listener to a WebSocket is not supported.".
Definition DEFAULT_PAYLOAD_LIMIT : Z := 16777216.
Definition PERMESSAGE_DEFLATE : Z := 1.
Definition SLIDING_DEFLATE_WINDOW : Z := 16.
Definition OPCODE_TEXT : Z := 1.
Definition OPCODE_BINARY : Z := 2.
Definition OPCODE_PING : Z := 9.
Definition OPEN : Z := 1.
Definition CLOSED : Z := 0.

(** ** Objects *)

(** [class WebSocket] and [class WebSocketClient extends WebSocket].  A slot
    is [None] while the property has never been assigned: the [WebSocket]
    constructor leaves [internalOnOpen] and [internalOnError] undefined. *)
Record WebSocket := mkWebSocket {
  isClient : bool;                                (* this instanceof WebSocketClient *)
  external : option handle;
  internalOnMessage : option fn;
  internalOnClose : option fn;
  onping : option fn;
  onpong : option fn;
  internalOnOpen : option fn;
  internalOnError : option fn
}.

Definition set_external (e : option handle) (s : WebSocket) : WebSocket :=
  mkWebSocket (isClient s) e (internalOnMessage s) (internalOnClose s)
    (onping s) (onpong s) (internalOnOpen s) (internalOnError s).
Definition set_internalOnMessage (f : option fn) (s : WebSocket) : WebSocket :=
  mkWebSocket (isClient s) (external s) f (internalOnClose s)
    (onping s) (onpong s) (internalOnOpen s) (internalOnError s).
Definition set_internalOnClose (f : option fn) (s : WebSocket) : WebSocket :=
  mkWebSocket (isClient s) (external s) (internalOnMessage s) f
    (onping s) (onpong s) (internalOnOpen s) (internalOnError s).
Definition set_onping (f : option fn) (s : WebSocket) : WebSocket :=
  mkWebSocket (isClient s) (external s) (internalOnMessage s) (internalOnClose s)
    f (onpong s) (internalOnOpen s) (internalOnError s).
Definition set_onpong (f : option fn) (s : WebSocket) : WebSocket :=
  mkWebSocket (isClient s) (external s) (internalOnMessage s) (internalOnClose s)
    (onping s) f (internalOnOpen s) (internalOnError s).
Definition set_internalOnOpen (f : option fn) (s : WebSocket) : WebSocket :=
  mkWebSocket (isClient s) (external s) (internalOnMessage s) (internalOnClose s)
    (onping s) (onpong s) f (internalOnError s).
Definition set_internalOnError (f : option fn) (s : WebSocket) : WebSocket :=
  mkWebSocket (isClient s) (external s) (internalOnMessage s) (internalOnClose s)
    (onping s) (onpong s) (internalOnOpen s) f.

(** [slot !== noop] *)
Definition not_noop (slot : option fn) : bool :=
  match slot with
  | Some Noop => false
  | _ => true
  end.

(** [slot === cb] *)
Definition same_fn (slot : option fn) (cb : fn) : bool :=
  match slot with
  | Some g => bool_decide (g = cb)
  | None => false
  end.

(** An incoming HTTP request, as far as the module reads it.  [headers] is
    the header object, indexed by lower-case header name. *)
Record request := mkRequest {
  url : string;
  headers : gmap string string;
  authorized : bool;              (* request.connection.authorized !== undefined *)
  encrypted : bool                (* request.connection.encrypted !== undefined *)
}.

(** The [info] object handed to [options.verifyClient]. *)
Record info := mkInfo {
  origin : option string;
  secure : bool;
  req : request
}.

(** The transport's own handle object ([socket._handle]). *)
Record sock_handle := mkSockHandle {
  fd : Z;
  handle_id : nat
}.

(** A transport socket, as far as the module reads it. *)
Record socket := mkSocket {
  sock_id : nat;
  _isNative : bool;
  sock_external : option handle;            (* socket.external *)
  ssl : option nat;                         (* socket.ssl *)
  _handle : option sock_handle;             (* socket._handle *)
  _parent_handle : option sock_handle       (* socket._parent._handle *)
}.

(** [options.verifyClient]: a predicate of one argument answers with its
    return value, a predicate of two arguments ([length === 2]) answers
    through the callback it is given. *)
Inductive verifier :=
| VerifySync (accept : info -> value)
| VerifyAsync (id : nat).

Inductive perMessageDeflate :=
| PmdUndefined
| PmdFalse
| PmdObject (serverNoContextTakeover : option bool).

Record options := mkOptions {
  port : option Z;
  host : option string;
  server : option nat;                      (* address of a transport server *)
  noServer : bool;
  path : option string;
  perMessageDeflate_ : perMessageDeflate;
  maxPayload : option Z;
  noDelay : option bool;
  verifyClient : option verifier
}.

Definition set_path (p : option string) (o : options) : options :=
  mkOptions (port o) (host o) (server o) (noServer o) p (perMessageDeflate_ o)
    (maxPayload o) (noDelay o) (verifyClient o).

(** What [handleUpgrade] may receive as [callback]. *)
Inductive upgrade_callback :=
| EmitConnection                            (* function emitConnection(ws) *)
| UpgradeFn (f : fn).

(** Listeners on a transport server. *)
Inductive listener :=
| LForeign (id : nat)                       (* installed by other code *)
| LDefaultRequest                           (* (request, response) => response.end() *)
| LHttpError (srv : nat)                    (* (err) => this.emit('error', err) *)
| LNewListener (srv : nat)                  (* clears this._lastUpgradeListener *)
| LUpgrade (srv : nat).                     (* this._upgradeListener *)

#[global] Instance listener_eq_dec : EqDecision listener.
Proof. solve_decision. Defined.

Record Server := mkServer {
  serverGroup : option handle;
  _upgradeCallback : upgrade_callback;
  _upgradeListener : option listener;
  _noDelay : bool;
  _lastUpgradeListener : bool;
  _passedHttpServer : option nat;
  httpServer : option nat;
  captured : options                        (* the options object the closures see *)
}.

Definition set_serverGroup (g : option handle) (s : Server) : Server :=
  mkServer g (_upgradeCallback s) (_upgradeListener s) (_noDelay s)
    (_lastUpgradeListener s) (_passedHttpServer s) (httpServer s) (captured s).
Definition set_upgradeCallback (c : upgrade_callback) (s : Server) : Server :=
  mkServer (serverGroup s) c (_upgradeListener s) (_noDelay s)
    (_lastUpgradeListener s) (_passedHttpServer s) (httpServer s) (captured s).
Definition set_upgradeListener (l : option listener) (s : Server) : Server :=
  mkServer (serverGroup s) (_upgradeCallback s) l (_noDelay s)
    (_lastUpgradeListener s) (_passedHttpServer s) (httpServer s) (captured s).
Definition set_lastUpgradeListener (b : bool) (s : Server) : Server :=
  mkServer (serverGroup s) (_upgradeCallback s) (_upgradeListener s) (_noDelay s)
    b (_passedHttpServer s) (httpServer s) (captured s).
Definition set_httpServer (t : option nat) (s : Server) : Server :=
  mkServer (serverGroup s) (_upgradeCallback s) (_upgradeListener s) (_noDelay s)
    (_lastUpgradeListener s) (_passedHttpServer s) t (captured s).
Definition set_captured (o : options) (s : Server) : Server :=
  mkServer (serverGroup s) (_upgradeCallback s) (_upgradeListener s) (_noDelay s)
    (_lastUpgradeListener s) (_passedHttpServer s) (httpServer s) o.

(** A transport server (Node's [http.Server]): the listeners in
    registration order and whether it is accepting connections. *)
Record HttpServer := mkHttpServer {
  listeners : list (string * listener);
  listening : bool
}.

(** ** The outside world *)

Inductive variant := ServerSide | ClientSide.   (* native.server.* / native.client.* *)

(** The fourth argument of [native.*.send]. *)
Inductive completion :=
| NoCompletion                              (* undefined *)
| FalseCompletion                           (* false, as ping passes it *)
| Wrapper (cb : value).                     (* () => { process.nextTick(cb) } *)

Inductive transfer_arg :=
| ByHandle (h : sock_handle)
| ByFd (n : Z).

Inductive native_call :=
| NSend (v : variant) (h : handle) (message : value) (opcode : Z)
        (done : completion) (compress : value)
| NTerminate (v : variant) (h : handle)
| NClose (v : variant) (h : handle) (code data : value)
| NConnect (uri : value) (ws : nat)
| NGroupCreate (nativeOptions : Z) (limit : Z) (g : handle)
| NGroupClose (g : handle)
| NGetSSLContext (ssl : nat)
| NTransfer (what : transfer_arg) (sslState : option nat) (ticket : handle)
| NUpgrade (g : handle) (ticket : option handle) (secKey : value)
           (extensions protocol : option string).

(** The engine's group an event is reported for. *)
Inductive group := ClientGroup | ServerGroupOf (srv : nat).

(** Calls the engine makes into the module: the callbacks registered with
    [native.*.group.on...] and the completion wrappers given to [send].
    A client connection is reported with the handle [ext] and the object
    [ws] that [native.connect] was given, which the engine keeps as the
    handle's user data and [native.getUserData(ext)] returns. *)
Inductive engine_event :=
| EvClientConnection (ext : handle) (ws : nat)
| EvServerConnection (srv : nat) (ext : handle)
| EvMessage (g : group) (message : value) (ws : nat)
| EvDisconnection (g : group) (ext : handle) (code message : value) (ws : nat)
| EvPing (g : group) (message : value) (ws : nat)
| EvPong (g : group) (message : value) (ws : nat)
| EvError (ws : nat)
| EvCompletion (cb : value).

Inductive socket_listener :=
| SLError (srv : nat)                       (* err => this.emit('socketError', err, socket) *)
| SLTlsError (srv : nat)                    (* err => this.emit('_tlsError', err, socket) *)
| SLClose (srv : nat) (r : request) (ticket : handle) (secKey : string)
          (callback : option upgrade_callback).

Inductive effect :=
| Native (c : native_call)                            (* a call into the engine *)
| Called (id : nat) (args : list value)               (* a function of the caller runs *)
| EmitConnectionEvent (srv : nat) (ws : nat) (r : option request)
                                                      (* server.emit('connection', ws, req) *)
| EmitListening (srv : nat)
| ForeignListener (id : nat) (ev : string)            (* another listener is notified *)
| VerifyAsked (id : nat) (i : info) (srv : nat) (s : socket)
                                                      (* verifyClient(info, callback) *)
| HttpListen (t : nat) (p : Z) (h : option string)
| SockOn (s : nat) (ev : string) (l : socket_listener)
| SockSetNoDelay (s : nat) (b : bool)
| SockEnd (s : nat) (data : string)
| SockDestroy (s : nat).

(** What [process.nextTick] has queued. *)
Inductive task :=
| TCallback (cb : fn)                                 (* a send completion *)
| TClose (ws : nat) (code message : value)            (* () => ws.internalOnClose(code, message) *)
| TError (ws : nat).                                  (* () => ws.internalOnError({...}) *)

Record world := mkWorld {
  websockets : list WebSocket;              (* connection objects, by address *)
  servers : list Server;                    (* Server objects, by address *)
  httpServers : list HttpServer;            (* transport servers, by address *)
  _upgradeReq : option request;             (* let _upgradeReq = null *)
  userData : gmap handle nat;               (* native.setUserData / getUserData *)
  globals : gmap string value;              (* properties of the global object *)
  next : nat;                               (* allocation counter *)
  ticks : list task;                        (* process.nextTick queue *)
  timers : list (fn * Z);                   (* setTimeout *)
  trace : list effect
}.

Definition with_websockets (x : list WebSocket) (w : world) : world :=
  mkWorld x (servers w) (httpServers w) (_upgradeReq w) (userData w) (globals w)
    (next w) (ticks w) (timers w) (trace w).
Definition with_servers (x : list Server) (w : world) : world :=
  mkWorld (websockets w) x (httpServers w) (_upgradeReq w) (userData w) (globals w)
    (next w) (ticks w) (timers w) (trace w).
Definition with_httpServers (x : list HttpServer) (w : world) : world :=
  mkWorld (websockets w) (servers w) x (_upgradeReq w) (userData w) (globals w)
    (next w) (ticks w) (timers w) (trace w).
Definition with_upgradeReq (x : option request) (w : world) : world :=
  mkWorld (websockets w) (servers w) (httpServers w) x (userData w) (globals w)
    (next w) (ticks w) (timers w) (trace w).
Definition with_userData (x : gmap handle nat) (w : world) : world :=
  mkWorld (websockets w) (servers w) (httpServers w) (_upgradeReq w) x (globals w)
    (next w) (ticks w) (timers w) (trace w).
Definition with_next (x : nat) (w : world) : world :=
  mkWorld (websockets w) (servers w) (httpServers w) (_upgradeReq w) (userData w)
    (globals w) x (ticks w) (timers w) (trace w).
Definition with_ticks (x : list task) (w : world) : world :=
  mkWorld (websockets w) (servers w) (httpServers w) (_upgradeReq w) (userData w)
    (globals w) (next w) x (timers w) (trace w).
Definition with_timers (x : list (fn * Z)) (w : world) : world :=
  mkWorld (websockets w) (servers w) (httpServers w) (_upgradeReq w) (userData w)
    (globals w) (next w) (ticks w) x (trace w).
Definition with_trace (x : list effect) (w : world) : world :=
  mkWorld (websockets w) (servers w) (httpServers w) (_upgradeReq w) (userData w)
    (globals w) (next w) (ticks w) (timers w) x.

(** ** Computations: state and exceptions *)

Inductive error :=
| Error (message : string)
| TypeError (message : string)
| ReferenceError (message : string)
| Dangling.                       (* an address outside the store *)

Inductive outcome (A : Type) :=
| Ret (a : A)
| Throw (e : error).
Arguments Ret {A} a.
Arguments Throw {A} e.

(** A computation runs in a world and either returns or throws; what it did
    before throwing stays done. *)
Definition M (A : Type) : Type := world -> outcome A * world.

Definition ret {A} (a : A) : M A := fun w => (Ret a, w).
Definition throw {A} (e : error) : M A := fun w => (Throw e, w).
Definition bind {A B} (m : M A) (k : A -> M B) : M B :=
  fun w => match m w with
           | (Ret a, w') => k a w'
           | (Throw e, w') => (Throw e, w')
           end.
Definition gets {A} (f : world -> A) : M A := fun w => (Ret (f w), w).
Definition modify (f : world -> world) : M unit := fun w => (Ret tt, f w).

Declare Scope js_scope.
Delimit Scope js_scope with js.
Notation "'let*' x ':=' m 'in' k" := (bind m (fun x => k))
  (at level 10, x name, m at level 100, k at level 200) : js_scope.
Notation "m '>>' k" := (bind m (fun _ => k))
  (at level 90, right associativity) : js_scope.
Local Open Scope js_scope.

Definition when (b : bool) (m : M unit) : M unit := if b then m else ret tt.

Fixpoint for_each {A} (l : list A) (body : A -> M unit) : M unit :=
  match l with
  | [] => ret tt
  | x :: l' => body x >> for_each l' body
  end.

Definition log (e : effect) : M unit :=
  modify (fun w => with_trace (trace w ++ [e]) w).

(** A fresh allocation number (closure identities, engine handles). *)
Definition fresh_id : M nat :=
  fun w => (Ret (next w), with_next (S (next w)) w).

Definition get_ws (a : nat) : M WebSocket :=
  fun w => match websockets w !! a with
           | Some s => (Ret s, w)
           | None => (Throw Dangling, w)
           end.
Definition update_ws (a : nat) (f : WebSocket -> WebSocket) : M unit :=
  let* s := get_ws a in
  modify (fun w => with_websockets (<[a := f s]> (websockets w)) w).
Definition new_ws (s : WebSocket) : M nat :=
  fun w => (Ret (length (websockets w)), with_websockets (websockets w ++ [s]) w).

Definition get_server (a : nat) : M Server :=
  fun w => match servers w !! a with
           | Some s => (Ret s, w)
           | None => (Throw Dangling, w)
           end.
Definition update_server (a : nat) (f : Server -> Server) : M unit :=
  let* s := get_server a in
  modify (fun w => with_servers (<[a := f s]> (servers w)) w).
Definition new_server (s : Server) : M nat :=
  fun w => (Ret (length (servers w)), with_servers (servers w ++ [s]) w).

Definition get_http (a : nat) : M HttpServer :=
  fun w => match httpServers w !! a with
           | Some s => (Ret s, w)
           | None => (Throw Dangling, w)
           end.
Definition update_http (a : nat) (f : HttpServer -> HttpServer) : M unit :=
  let* s := get_http a in
  modify (fun w => with_httpServers (<[a := f s]> (httpServers w)) w).
Definition new_http (s : HttpServer) : M nat :=
  fun w => (Ret (length (httpServers w)), with_httpServers (httpServers w ++ [s]) w).

(** [process.nextTick(callback)]; Node rejects a callback that is not a
    function. *)
Definition nextTick (t : task) : M unit :=
  modify (fun w => with_ticks (ticks w ++ [t]) w).
Definition nextTick_value (cb : value) : M unit :=
  match cb with
  | VFun f => nextTick (TCallback f)
  | _ => throw (TypeError "callback is not a function")
  end.

(** ** Calling function values *)

Definition arg (n : nat) (args : list value) : value := nth n args VUndefined.

Definition reset_slot (k : once_kind) : WebSocket -> WebSocket :=
  match k with
  | OnceMessage => set_internalOnMessage (Some Noop)
  | OnceOpen => set_internalOnOpen (Some Noop)
  | OnceClose => set_internalOnClose (Some Noop)
  | OncePing => set_onping (Some Noop)
  | OncePong => set_onpong (Some Noop)
  end.

(** What a [once] wrapper passes on: [f(message)], [f(code, message)], and
    [f()] for open, ping and pong. *)
Definition once_args (k : once_kind) (args : list value) : list value :=
  match k with
  | OnceMessage => [arg 0 args]
  | OnceClose => [arg 0 args; arg 1 args]
  | OnceOpen | OncePing | OncePong => []
  end.

(** The body of a function of the caller is not part of the module: calling
    it is recorded in the trace. *)
Fixpoint call_fn (f : fn) (args : list value) : M unit :=
  match f with
  | Noop => ret tt
  | UserFn id => log (Called id args)
  | OnmessageWrap _ g => call_fn g [VObj [("data", arg 0 args)]]
  | OncloseWrap _ g => call_fn g [VObj [("code", arg 0 args); ("reason", arg 1 args)]]
  | OnceWrap _ k this g =>
      update_ws this (reset_slot k) >> call_fn g (once_args k args)
  end.

Definition call_slot (slot : option fn) (args : list value) : M unit :=
  match slot with
  | Some f => call_fn f args
  | None => throw (TypeError "slot is not a function")
  end.

Definition call_value (v : value) (args : list value) : M unit :=
  match v with
  | VFun f => call_fn f args
  | _ => throw (TypeError "cb is not a function")
  end.

(** ** class WebSocket: the part common to both variants *)

Module WebSocket.

(** [constructor(external)] *)
Definition constructor (ext : option handle) : M nat :=
  new_ws (mkWebSocket false ext (Some Noop) (Some Noop) (Some Noop) (Some Noop)
            None None).

(** [set onmessage(f)]; [None] stands for a falsy argument. *)
Definition set_onmessage (this : nat) (f : option fn) : M unit :=
  match f with
  | Some g =>
      let* a := fresh_id in
      update_ws this (set_internalOnMessage (Some (OnmessageWrap a g)))
  | None => update_ws this (set_internalOnMessage (Some Noop))
  end.

Definition set_onopen (this : nat) (f : option fn) : M unit :=
  match f with
  | Some g => update_ws this (set_internalOnOpen (Some g))
  | None => update_ws this (set_internalOnOpen (Some Noop))
  end.

Definition set_onclose (this : nat) (f : option fn) : M unit :=
  match f with
  | Some g =>
      let* a := fresh_id in
      update_ws this (set_internalOnClose (Some (OncloseWrap a g)))
  | None => update_ws this (set_internalOnClose (Some Noop))
  end.

Definition set_onerror (this : nat) (f : option fn) : M unit :=
  let* s := get_ws this in
  match f with
  | Some g =>
      if isClient s then update_ws this (set_internalOnError (Some g))
      else update_ws this (set_internalOnError (Some Noop))
  | None => update_ws this (set_internalOnError (Some Noop))
  end.

Definition emit (this : nat) (eventName : string) (arg1 arg2 : value) : M unit :=
  let* s := get_ws this in
  if String.eqb eventName "message" then call_slot (internalOnMessage s) [arg1]
  else if String.eqb eventName "close" then call_slot (internalOnClose s) [arg1; arg2]
  else if String.eqb eventName "ping" then call_slot (onping s) [arg1]
  else if String.eqb eventName "pong" then call_slot (onpong s) [arg1]
  else ret tt.

Definition on (this : nat) (eventName : string) (f : fn) : M unit :=
  let* s := get_ws this in
  if String.eqb eventName "message" then
    if not_noop (internalOnMessage s) then throw (Error EE_ERROR)
    else update_ws this (set_internalOnMessage (Some f))
  else if String.eqb eventName "close" then
    if not_noop (internalOnClose s) then throw (Error EE_ERROR)
    else update_ws this (set_internalOnClose (Some f))
  else if String.eqb eventName "ping" then
    if not_noop (onping s) then throw (Error EE_ERROR)
    else update_ws this (set_onping (Some f))
  else if String.eqb eventName "pong" then
    if not_noop (onpong s) then throw (Error EE_ERROR)
    else update_ws this (set_onpong (Some f))
  else if String.eqb eventName "open" then
    if not_noop (internalOnOpen s) then throw (Error EE_ERROR)
    else update_ws this (set_internalOnOpen (Some f))
  else if String.eqb eventName "error" && isClient s then
    if not_noop (internalOnError s) then throw (Error EE_ERROR)
    else update_ws this (set_internalOnError (Some f))
  else ret tt.

Definition once (this : nat) (eventName : string) (f : fn) : M unit :=
  let* s := get_ws this in
  if String.eqb eventName "message" then
    if not_noop (internalOnMessage s) then throw (Error EE_ERROR)
    else let* a := fresh_id in
         update_ws this (set_internalOnMessage (Some (OnceWrap a OnceMessage this f)))
  else if String.eqb eventName "open" then
    if not_noop (internalOnOpen s) then throw (Error EE_ERROR)
    else let* a := fresh_id in
         update_ws this (set_internalOnOpen (Some (OnceWrap a OnceOpen this f)))
  else if String.eqb eventName "close" then
    if not_noop (internalOnClose s) then throw (Error EE_ERROR)
    else let* a := fresh_id in
         update_ws this (set_internalOnClose (Some (OnceWrap a OnceClose this f)))
  else if String.eqb eventName "ping" then
    if not_noop (onping s) then throw (Error EE_ERROR)
    else let* a := fresh_id in
         update_ws this (set_onping (Some (OnceWrap a OncePing this f)))
  else if String.eqb eventName "pong" then
    if not_noop (onpong s) then throw (Error EE_ERROR)
    else let* a := fresh_id in
         update_ws this (set_onpong (Some (OnceWrap a OncePong this f)))
  else ret tt.

(** [!eventName || eventName === name]; [None] is a missing argument. *)
Definition all_or (eventName : option string) (name : string) : bool :=
  match eventName with
  | None => true
  | Some e => String.eqb e "" || String.eqb e name
  end.

Definition removeAllListeners (this : nat) (eventName : option string) : M unit :=
  when (all_or eventName "message") (update_ws this (set_internalOnMessage (Some Noop))) >>
  when (all_or eventName "open") (update_ws this (set_internalOnOpen (Some Noop))) >>
  when (all_or eventName "close") (update_ws this (set_internalOnClose (Some Noop))) >>
  when (all_or eventName "ping") (update_ws this (set_onping (Some Noop))) >>
  when (all_or eventName "pong") (update_ws this (set_onpong (Some Noop))).

Definition removeListener (this : nat) (eventName : string) (cb : fn) : M unit :=
  let* s := get_ws this in
  if String.eqb eventName "message" && same_fn (internalOnMessage s) cb then
    update_ws this (set_internalOnMessage (Some Noop))
  else if String.eqb eventName "open" && same_fn (internalOnOpen s) cb then
    update_ws this (set_internalOnOpen (Some Noop))
  else if String.eqb eventName "close" && same_fn (internalOnClose s) cb then
    update_ws this (set_internalOnClose (Some Noop))
  else if String.eqb eventName "ping" && same_fn (onping s) cb then
    update_ws this (set_onping (Some Noop))
  else if String.eqb eventName "pong" && same_fn (onpong s) cb then
    update_ws this (set_onpong (Some Noop))
  else ret tt.

(** [get readyState()] *)
Definition readyState (s : WebSocket) : Z :=
  match external s with
  | Some _ => OPEN
  | None => CLOSED
  end.

End WebSocket.

(** ** The engine's callbacks *)

(** [this._upgradeCallback(webSocket)], called on the server [srv]. *)
Definition call_upgrade_callback (srv : nat) (c : upgrade_callback) (ws : nat) : M unit :=
  match c with
  | EmitConnection =>
      let* r := gets _upgradeReq in
      log (EmitConnectionEvent srv ws r)
  | UpgradeFn f => call_fn f [VRef ws]
  end.

(** The callbacks registered with [native.client.group.on...] at module
    level and with [native.server.group.on...] in the [Server] constructor,
    and the completion wrapper [send] hands to the engine. *)
Definition dispatch (ev : engine_event) : M unit :=
  match ev with
  | EvClientConnection ext ws =>
      modify (fun w => with_userData (<[ext := ws]> (userData w)) w) >>
      update_ws ws (set_external (Some ext)) >>
      let* s := get_ws ws in
      call_slot (internalOnOpen s) []
  | EvServerConnection srv ext =>
      let* ws := WebSocket.constructor (Some ext) in
      modify (fun w => with_userData (<[ext := ws]> (userData w)) w) >>
      let* this := get_server srv in
      call_upgrade_callback srv (_upgradeCallback this) ws >>
      modify (with_upgradeReq None)
  | EvMessage _ message ws =>
      let* s := get_ws ws in
      call_slot (internalOnMessage s) [message]
  | EvDisconnection _ ext code message ws =>
      update_ws ws (set_external None) >>
      nextTick (TClose ws code message) >>
      modify (fun w => with_userData (delete ext (userData w)) w)
  | EvPing _ message ws =>
      let* s := get_ws ws in
      call_slot (onping s) [message]
  | EvPong _ message ws =>
      let* s := get_ws ws in
      call_slot (onpong s) [message]
  | EvError ws =>
      nextTick (TError ws)
  | EvCompletion cb =>
      nextTick_value cb
  end.

(** ** The scheduler: running what [process.nextTick] queued *)

Definition client_error : value :=
  VObj [("message", VStr "uWs client connection error");
        ("stack", VStr "uWs client connection error")].

Definition run_task (t : task) : M unit :=
  match t with
  | TCallback cb => call_fn cb []
  | TClose ws code message =>
      let* s := get_ws ws in
      call_slot (internalOnClose s) [code; message]
  | TError ws =>
      let* s := get_ws ws in
      call_slot (internalOnError s) [client_error]
  end.

(** One scheduling turn: the oldest queued task leaves the queue and runs. *)
Definition run_tick : M unit :=
  let* q := gets ticks in
  match q with
  | [] => ret tt
  | t :: q' => modify (with_ticks q') >> run_task t
  end.

(** ** Strings the upgrade path handles *)

Definition CRLF : string :=
  String (Ascii.ascii_of_nat 13) (String (Ascii.ascii_of_nat 10) EmptyString).

(** [s.split(c)[0]]: the part of [s] before the first [c]. *)
Fixpoint before (c : Ascii.ascii) (s : string) : string :=
  match s with
  | EmptyString => EmptyString
  | String a s' => if Ascii.eqb a c then EmptyString else String a (before c s')
  end.

(** [request.url.split('?')[0].split('#')[0]] *)
Definition url_path (u : string) : string := before "#"%char (before "?"%char u).

(** An optional string as a condition: missing and empty are both falsy. *)
Definition path_set (p : option string) : bool :=
  match p with
  | Some s => negb (String.eqb s "")
  | None => false
  end.

(** [if (options.path && (!options.path.length || options.path[0] !== '/'))
    options.path = '/' + options.path] *)
Definition normalise_path (p : option string) : option string :=
  match p with
  | Some s =>
      if negb (String.eqb s "") then
        match s with
        | String a _ => if Ascii.eqb a "/"%char then Some s else Some ("/" +:+ s)
        | EmptyString => Some ("/" +:+ s)
        end
      else Some s
  | None => None
  end.

(** ** Node's EventEmitter, as far as the transport server uses it *)

(** [emitter.on(ev, l)]: Node first emits ['newListener'] with [(ev, l)] to
    the listeners already registered for ['newListener'], then appends
    [l].  Of the module's own listeners only [LNewListener] is ever
    registered for that event. *)
Definition notify_newListener (ev : string) (l : listener) : M unit :=
  match l with
  | LNewListener srv =>
      when (String.eqb ev "upgrade") (update_server srv (set_lastUpgradeListener false))
  | LForeign id => log (ForeignListener id "newListener")
  | LDefaultRequest | LHttpError _ | LUpgrade _ => ret tt
  end.

Definition newListener_listeners (hs : HttpServer) : list listener :=
  map snd (List.filter (fun p => String.eqb (fst p) "newListener") (listeners hs)).

Definition emitter_on (t : nat) (ev : string) (l : listener) : M unit :=
  let* hs := get_http t in
  for_each (newListener_listeners hs) (notify_newListener ev) >>
  update_http t (fun hs => mkHttpServer (listeners hs ++ [(ev, l)]) (listening hs)).

(** [emitter.removeListener(ev, l)] removes the most recently added
    registration of [l] for [ev], if there is one. *)
Fixpoint remove_last (x : string * listener) (l : list (string * listener))
  : list (string * listener) :=
  match l with
  | [] => []
  | y :: l' =>
      if bool_decide (x ∈ l') then y :: remove_last x l'
      else if bool_decide (y = x) then l'
      else y :: l'
  end.

Definition emitter_removeListener (t : nat) (ev : string) (l : listener) : M unit :=
  update_http t (fun hs => mkHttpServer (remove_last (ev, l) (listeners hs)) (listening hs)).

(** [http.createServer(listener)] *)
Definition http_createServer : M nat :=
  new_http (mkHttpServer [("request", LDefaultRequest)] false).

(** [httpServer.listen(port, host, callback)] *)
Definition http_listen (t : nat) (p : Z) (h : option string) : M unit :=
  update_http t (fun hs => mkHttpServer (listeners hs) true) >>
  log (HttpListen t p h).

(** [httpServer.close()]: the server stops accepting connections; on a
    server that is not listening there is nothing to stop. *)
Definition http_close (t : nat) : M unit :=
  update_http t (fun hs => mkHttpServer (listeners hs) false).

(** [socket.ssl ? socket._parent._handle : socket._handle] *)
Definition socket_handle (sock : socket) : option sock_handle :=
  match ssl sock with
  | Some _ => _parent_handle sock
  | None => _handle sock
  end.

(** [abortConnection(socket, code, name)] *)
Definition abortConnection (s : socket) (code name : value) : M unit :=
  log (SockEnd (sock_id s)
         ("HTTP/1.1 " +:+ to_string code +:+ " " +:+ to_string name +:+ CRLF +:+ CRLF)).

(** An identifier that no enclosing scope binds is looked up on the global
    object; strict mode throws when it is not there. *)
Definition resolve_global (name : string) : M value :=
  let* found := gets (fun w => globals w !! name) in
  match found with
  | Some v => ret v
  | None => throw (ReferenceError (name +:+ " is not defined"))
  end.

(** ** The module against an engine

    [react c] lists the callbacks the engine makes while the native call
    [c] is still running (a completion wrapper called at once, a
    disconnection reported from inside [terminate], a connection reported
    from inside [upgrade], ...).  Nothing is assumed about it. *)

Section Engine.

Variable react : native_call -> list engine_event.

Definition native (c : native_call) : M unit :=
  log (Native c) >> for_each (react c) dispatch.

Definition variant_of (s : WebSocket) : variant :=
  if isClient s then ClientSide else ServerSide.

(** *** Methods that differ between [WebSocket] and [WebSocketClient]

    The two classes give the same bodies, [WebSocket] over
    [native.server.*] and [WebSocketClient] over [native.client.*]. *)

Definition ping (this : nat) (message : value) : M unit :=
  let* s := get_ws this in
  match external s with
  | Some h => native (NSend (variant_of s) h message OPCODE_PING FalseCompletion VUndefined)
  | None => ret tt
  end.

Definition terminate (this : nat) : M unit :=
  let* s := get_ws this in
  match external s with
  | Some h =>
      native (NTerminate (variant_of s) h) >>
      update_ws this (set_external None)
  | None => ret tt
  end.

(** [options && typeof options.binary === 'boolean' ? options.binary
    : typeof message !== 'string'], and the opcode chosen by it. *)
Definition binary_for (message options : value) : bool :=
  if truthy options && String.eqb (typeof (get_prop options "binary")) "boolean"
  then truthy (get_prop options "binary")
  else negb (String.eqb (typeof message) "string").

Definition opcode_for (message options : value) : Z :=
  if binary_for message options then OPCODE_BINARY else OPCODE_TEXT.

Definition send (this : nat) (message options cb compress : value) : M unit :=
  let* s := get_ws this in
  match external s with
  | Some h =>
      let shifted := String.eqb (typeof options) "function" in
      let cb := if shifted then options else cb in
      let options := if shifted then VNull else options in
      native (NSend (variant_of s) h message (opcode_for message options)
                (if truthy cb then Wrapper cb else NoCompletion)
                compress)
  | None =>
      if truthy cb then call_value cb [VError "not opened"] else ret tt
  end.

Definition close (this : nat) (code data : value) : M unit :=
  let* s := get_ws this in
  match external s with
  | Some h =>
      native (NClose (variant_of s) h code data) >>
      update_ws this (set_external None)
  | None => ret tt
  end.

(** [new WebSocketClient(uri)] *)
Definition WebSocketClient_constructor (uri : value) : M nat :=
  let* this := new_ws (mkWebSocket true None (Some Noop) (Some Noop) (Some Noop)
                         (Some Noop) (Some Noop) (Some Noop)) in
  native (NConnect uri this) >>
  ret this.

(** *** class Server *)

Definition native_group_create (nativeOptions limit : Z) : M handle :=
  let* g := fresh_id in
  native (NGroupCreate nativeOptions limit g) >>
  ret g.

(** [native.getSSLContext(socket.ssl)] only reads the TLS state. *)
Definition native_getSSLContext (c : nat) : M (option nat) :=
  log (Native (NGetSSLContext c)) >>
  ret (Some c).

Definition native_transfer (what : transfer_arg) (sslState : option nat) : M handle :=
  let* ticket := fresh_id in
  native (NTransfer what sslState ticket) >>
  ret ticket.

Definition or_noop (callback : option upgrade_callback) : upgrade_callback :=
  match callback with
  | Some c => c
  | None => UpgradeFn Noop
  end.

(** The listener [handleUpgrade] puts on the transport socket's ['close']. *)
Definition socket_closed (this : nat) (r : request) (ticket : handle) (secKey : string)
    (callback : option upgrade_callback) : M unit :=
  let* s := get_server this in
  match serverGroup s with
  | Some g =>
      modify (with_upgradeReq (Some r)) >>
      update_server this (set_upgradeCallback (or_noop callback)) >>
      native (NUpgrade g (Some ticket) (VStr secKey)
                (headers r !! "sec-websocket-extensions")
                (headers r !! "sec-websocket-protocol"))
  | None => ret tt
  end.

Definition handleUpgrade (this : nat) (r : request) (sock : socket) (upgradeHead : value)
    (callback : option upgrade_callback) : M unit :=
  if _isNative sock then
    let* s := get_server this in
    match serverGroup s with
    | Some g =>
        modify (with_upgradeReq (Some r)) >>
        update_server this (set_upgradeCallback (or_noop callback)) >>
        (* [secKey] is a [const] of the else block only: here the
           identifier is free *)
        let* secKey := resolve_global "secKey" in
        native (NUpgrade g (sock_external sock) secKey
                  (headers r !! "sec-websocket-extensions")
                  (headers r !! "sec-websocket-protocol"))
    | None => ret tt
    end
  else
    let secKey := headers r !! "sec-websocket-key" in
    let socketHandle := socket_handle sock in
    let* sslState :=
      match ssl sock with
      | Some c => native_getSSLContext c
      | None => ret None
      end in
    match socketHandle, secKey with
    | Some h, Some k =>
        if negb (String.eqb k "") && Nat.eqb (String.length k) 24 then
          let* s := get_server this in
          log (SockSetNoDelay (sock_id sock) (_noDelay s)) >>
          let* ticket :=
            native_transfer (if Z.eqb (fd h) (-1) then ByHandle h else ByFd (fd h))
              sslState in
          log (SockOn (sock_id sock) "close" (SLClose this r ticket k callback))
        else ret tt
    | _, _ => ret tt
    end >>
    log (SockDestroy (sock_id sock)).

(** The callback the upgrade listener gives to a two-argument
    [verifyClient]. *)
Definition verified (this : nat) (r : request) (sock : socket) (head : value)
    (result code name : value) : M unit :=
  if truthy result then handleUpgrade this r sock head (Some EmitConnection)
  else abortConnection sock code name.

(** [this._upgradeListener], the listener for the transport's ['upgrade']. *)
Definition upgradeListener (this : nat) (r : request) (sock : socket) (head : value)
    : M unit :=
  log (SockOn (sock_id sock) "error" (SLError this)) >>
  log (SockOn (sock_id sock) "_tlsError" (SLTlsError this)) >>
  let* s := get_server this in
  let options := captured s in
  if negb (path_set (path options))
     || bool_decide (path options = Some (url_path (url r))) then
    match verifyClient options with
    | Some v =>
        let i := mkInfo (headers r !! "origin") (authorized r || encrypted r) r in
        match v with
        | VerifyAsync id => log (VerifyAsked id i this sock)
        | VerifySync accept =>
            if truthy (accept i) then handleUpgrade this r sock head (Some EmitConnection)
            else abortConnection sock (VNum 400) (VStr "Client verification failed")
        end
    | None => handleUpgrade this r sock head (Some EmitConnection)
    end
  else
    when (_lastUpgradeListener s)
      (abortConnection sock (VNum 400) (VStr "URL not supported")).

(** The callback given to [httpServer.listen]. *)
Definition listening_callback (this : nat) (callback : option fn) : M unit :=
  log (EmitListening this) >>
  match callback with
  | Some f => call_fn f []
  | None => ret tt
  end.

Definition nativeOptions_of (p : perMessageDeflate) : Z :=
  match p with
  | PmdUndefined | PmdFalse => 0
  | PmdObject takeover =>
      let o := Z.lor 0 PERMESSAGE_DEFLATE in
      match takeover with
      | Some false => Z.lor o SLIDING_DEFLATE_WINDOW
      | _ => o
      end
  end.

(** [new Server(options, callback)] *)
Definition Server_constructor (o : option options) (callback : option fn) : M nat :=
  match o with
  | None => throw (TypeError "missing options")
  | Some options =>
      if bool_decide (port options = None) && bool_decide (server options = None)
         && negb (noServer options)
      then throw (TypeError "invalid options")
      else
        let* g := native_group_create (nativeOptions_of (perMessageDeflate_ options))
                    (default DEFAULT_PAYLOAD_LIMIT (maxPayload options)) in
        let* this := new_server (mkServer (Some g) (UpgradeFn Noop) None
                                   (default true (noDelay options)) true
                                   (server options) None options) in
        when (negb (noServer options))
          (let* t := match server options with
                     | Some t => ret t
                     | None => http_createServer
                     end in
           update_server this (set_httpServer (Some t)) >>
           update_server this (set_captured (set_path (normalise_path (path options)) options)) >>
           emitter_on t "error" (LHttpError this) >>
           emitter_on t "newListener" (LNewListener this) >>
           update_server this (set_upgradeListener (Some (LUpgrade this))) >>
           emitter_on t "upgrade" (LUpgrade this)) >>
        match port options with
        | Some p =>
            let* s := get_server this in
            match httpServer s with
            | Some t =>
                http_listen t p (if path_set (host options) then host options else None)
            | None => throw (TypeError "cannot read property listen of undefined")
            end
        | None => ret tt
        end >>
        ret this
  end.

(** [Server.close(cb)] *)
Definition Server_close (this : nat) (cb : value) : M unit :=
  let* s := get_server this in
  match _upgradeListener s, httpServer s with
  | Some l, Some t =>
      emitter_removeListener t "upgrade" l >>
      match _passedHttpServer s with
      | None => http_close t
      | Some _ => ret tt
      end
  | _, _ => ret tt
  end >>
  let* s := get_server this in
  match serverGroup s with
  | Some g =>
      native (NGroupClose g) >>
      update_server this (set_serverGroup None)
  | None => ret tt
  end >>
  match cb with
  | VFun f => modify (fun w => with_timers (timers w ++ [(f, 20000)]) w)
  | _ => ret tt
  end.

End Engine.

(** * Vocabulary of the statements *)

(** ** Event slots *)

(** The five events every registration method knows. *)
Definition common_events : list string := ["message"; "open"; "close"; "ping"; "pong"].

(** The slot an event name stands for; ["error"] is the sixth. *)
Definition slot_of (eventName : string) (s : WebSocket) : option fn :=
  if String.eqb eventName "message" then internalOnMessage s
  else if String.eqb eventName "open" then internalOnOpen s
  else if String.eqb eventName "close" then internalOnClose s
  else if String.eqb eventName "ping" then onping s
  else if String.eqb eventName "pong" then onpong s
  else if String.eqb eventName "error" then internalOnError s
  else None.

(** The slot of [this] for [eventName] in a world. *)
Definition handler_of (w : world) (this : nat) (eventName : string) : option fn :=
  match websockets w !! this with
  | Some s => slot_of eventName s
  | None => None
  end.

(** Replacing the object at an address. *)
Definition upd (a : nat) (x : WebSocket) (w : world) : world :=
  with_websockets (<[a := x]> (websockets w)) w.

(** ** Runs: what can happen to a connection, one step after another *)

(** The methods of a connection. *)
Inductive api_call :=
| Send (message options cb compress : value)
| Ping (message : value)
| Terminate
| Close (code data : value)
| On (eventName : string) (f : fn)
| Once (eventName : string) (f : fn)
| RemoveAllListeners (eventName : option string)
| RemoveListener (eventName : string) (cb : fn)
| Emit (eventName : string) (arg1 arg2 : value)
| SetOnmessage (f : option fn)
| SetOnopen (f : option fn)
| SetOnclose (f : option fn)
| SetOnerror (f : option fn).

(** A step of a run: the caller invokes a method of a connection, the
    engine makes one of its callbacks, or the scheduler starts the next
    turn. *)
Inductive step :=
| Call (this : nat) (c : api_call)
| Engine (ev : engine_event)
| Turn.

Section Runs.

Variable react : native_call -> list engine_event.

Definition perform (this : nat) (c : api_call) : M unit :=
  match c with
  | Send message options cb compress => send react this message options cb compress
  | Ping message => ping react this message
  | Terminate => terminate react this
  | Close code data => close react this code data
  | On eventName f => WebSocket.on this eventName f
  | Once eventName f => WebSocket.once this eventName f
  | RemoveAllListeners eventName => WebSocket.removeAllListeners this eventName
  | RemoveListener eventName cb => WebSocket.removeListener this eventName cb
  | Emit eventName arg1 arg2 => WebSocket.emit this eventName arg1 arg2
  | SetOnmessage f => WebSocket.set_onmessage this f
  | SetOnopen f => WebSocket.set_onopen this f
  | SetOnclose f => WebSocket.set_onclose this f
  | SetOnerror f => WebSocket.set_onerror this f
  end.

Definition run_step (st : step) : M unit :=
  match st with
  | Call this c => perform this c
  | Engine ev => dispatch ev
  | Turn => run_tick
  end.

(** The world after a run.  A step that throws leaves the world as it was
    when the exception was raised; the run goes on from there. *)
Definition run (steps : list step) (w : world) : world :=
  fold_left (fun w st => snd (run_step st w)) steps w.

End Runs.

(** [n] scheduling turns. *)
Definition turns (n : nat) (w : world) : world :=
  Nat.iter n (fun w => snd (run_tick w)) w.

(** A registration through [on] or [once]. *)
Definition is_registration (c : api_call) : Prop :=
  match c with
  | On _ _ | Once _ _ => True
  | _ => False
  end.

(** The step reports connection [a] open: that is the engine's connection
    callback of the client group, for [a]. *)
Definition opens (a : nat) (ev : engine_event) : Prop :=
  match ev with
  | EvClientConnection _ ws => ws = a
  | _ => False
  end.

Definition step_opens (a : nat) (st : step) : Prop :=
  match st with
  | Engine ev => opens a ev
  | _ => False
  end.

(** Connection [a] exists and its engine handle is absent. *)
Definition closed (a : nat) (w : world) : Prop :=
  exists s, websockets w !! a = Some s /\ external s = None.

(** ** Sample objects and worlds *)

(** What [new WebSocket(external)] builds. *)
Definition server_ws (e : option handle) : WebSocket :=
  mkWebSocket false e (Some Noop) (Some Noop) (Some Noop) (Some Noop) None None.

(** What [new WebSocketClient(uri)] builds, with [external] as given. *)
Definition client_ws (e : option handle) : WebSocket :=
  mkWebSocket true e (Some Noop) (Some Noop) (Some Noop) (Some Noop) (Some Noop)
    (Some Noop).

(** A world that holds the given connections and nothing else. *)
Definition world_of (l : list WebSocket) : world :=
  mkWorld l [] [] None ∅ ∅ 0 [] [] [].

(** An engine that never calls back while a native call is running. *)
Definition quiet : native_call -> list engine_event := fun _ => [].

(** [m] keeps [P]: whether it returns or throws, it ends in a world where
    [P] still holds. *)
Definition preserves {A} (P : world -> Prop) (m : M A) : Prop :=
  forall w, P w -> P (snd (m w)).

(** The tasks the engine queues by calling the completion wrappers of
    callbacks that are functions. *)
Definition queued (l : list engine_event) : list task :=
  flat_map (fun ev => match ev with
                      | EvCompletion (VFun g) => [TCallback g]
                      | _ => []
                      end) l.

(** An engine that calls every completion wrapper at once, from inside
    [send]. *)
Definition eager (c : native_call) : list engine_event :=
  match c with
  | NSend _ _ _ _ (Wrapper (VFun f)) _ => [EvCompletion (VFun f)]
  | _ => []
  end.

(** ** Sample requests and sockets *)

(** A request for [target] that carries the handshake key [key]. *)
Definition request_for (target key : string) : request :=
  mkRequest target (<["sec-websocket-key" := key]> ∅) false false.

(** A plain TCP socket of the transport, with file descriptor 12. *)
Definition tcp_socket (id : nat) : socket :=
  mkSocket id false None None (Some (mkSockHandle 12 1)) None.

(** A socket that is already attached to the engine, under handle 5. *)
Definition native_socket (id : nat) : socket :=
  mkSocket id true (Some 5%nat) None None None.

(** The query for the TLS state that precedes the check of the handshake. *)
Definition ssl_query (sock : socket) : list effect :=
  match ssl sock with
  | Some c => [Native (NGetSSLContext c)]
  | None => []
  end.

(** A status line as [abortConnection] writes it. *)
Definition status_line (code name : string) : string :=
  "HTTP/1.1 " +:+ code +:+ " " +:+ name +:+ CRLF +:+ CRLF.

(** The server at [this] exists and its [_lastUpgradeListener] is false. *)
Definition flag_cleared (this : nat) (w : world) : Prop :=
  exists s, servers w !! this = Some s /\ _lastUpgradeListener s = false.

(** The calls into the engine among the entries of a trace. *)
Definition natives (l : list effect) : list native_call :=
  flat_map (fun e => match e with
                     | Native c => [c]
                     | _ => []
                     end) l.

(** How often a registration occurs among the listeners. *)
Fixpoint occurrences (x : string * listener) (l : list (string * listener)) : nat :=
  match l with
  | [] => 0
  | y :: l' => (if bool_decide (y = x) then 1 else 0) + occurrences x l'
  end.

(** The server at [this] has given up its group, and its upgrade listener,
    if it has a transport, is no longer registered there; a transport the
    server made itself is not listening. *)
Definition released (this : nat) (w : world) : Prop :=
  exists s,
    servers w !! this = Some s /\
    serverGroup s = None /\
    forall l t, _upgradeListener s = Some l -> httpServer s = Some t ->
      exists hs, httpServers w !! t = Some hs /\
                 (("upgrade", l) ∉ listeners hs) /\
                 (_passedHttpServer s = None -> listening hs = false).

(** The world after [close(cb)] when there was nothing left to release:
    only the compatibility timer for [cb] is new. *)
Definition with_close_timer (cb : value) (w : world) : world :=
  match cb with
  | VFun f => with_timers (timers w ++ [(f, 20000)]) w
  | _ => w
  end.

(** The server at [this] satisfies [Q]. *)
Definition server_has (this : nat) (Q : Server -> Prop) (w : world) : Prop :=
  exists s, servers w !! this = Some s /\ Q s.

(** The registration [x] occurs [n] times on the transport [t]. *)
Definition registered (t : nat) (x : string * listener) (n : nat) (w : world) : Prop :=
  exists hs, httpServers w !! t = Some hs /\ occurrences x (listeners hs) = n.

(** The upgrade listener of the server at [this] is registered at most once
    on the server's transport. *)
Definition registered_once (this : nat) (w : world) : Prop :=
  forall s l t hs,
    servers w !! this = Some s ->
    _upgradeListener s = Some l -> httpServer s = Some t ->
    httpServers w !! t = Some hs ->
    (occurrences ("upgrade", l) (listeners hs) <= 1)%nat.

(** * The rest of the module *)

(** ** Methods that only read, or only pass a call on to the engine

    [broadcast], [startAutoPing] and the [clients] and [_socket] getters make
    at most one call into the engine and touch nothing else; the embedding
    returns that call instead of logging it. *)
Inductive query :=
| QBroadcast (g : handle) (message binary : value)
    (* native.server.group.broadcast(g, message, binary) *)
| QStartAutoPing (g : handle) (interval userMessage : value)
    (* native.server.group.startAutoPing(g, interval, userMessage) *)
| QGetSize (g : handle)
    (* native.server.group.getSize(g) *)
| QGetAddress (h : handle).
    (* native.getAddress(external) *)

(** [options && options.binary || false] *)
Definition broadcast_binary (options : value) : value :=
  let v := if truthy options then get_prop options "binary" else options in
  if truthy v then v else VBool false.

(** [Server.broadcast(message, options)] *)
Definition Server_broadcast (this : nat) (message options : value) : M (option query) :=
  let* s := get_server this in
  match serverGroup s with
  | Some g => ret (Some (QBroadcast g message (broadcast_binary options)))
  | None => ret None
  end.

(** [Server.startAutoPing(interval, userMessage)] *)
Definition Server_startAutoPing (this : nat) (interval userMessage : value)
    : M (option query) :=
  let* s := get_server this in
  match serverGroup s with
  | Some g => ret (Some (QStartAutoPing g interval userMessage))
  | None => ret None
  end.

(** [get clients()]: the object [{length, forEach}], whose [length] is read
    from the engine at once and whose [forEach] iterates the group [g]; or
    undefined. *)
Definition Server_clients (this : nat) : M (option (query * handle)) :=
  let* s := get_server this in
  match serverGroup s with
  | Some g => ret (Some (QGetSize g, g))
  | None => ret None
  end.

(** [get upgradeReq()]: every connection reads the one module-level slot. *)
Definition WebSocket_upgradeReq (this : nat) : M (option request) :=
  gets _upgradeReq.

(** The six property names of [_socket], in the order of the address array. *)
Definition socket_fields : list string :=
  ["remotePort"; "remoteAddress"; "remoteFamily"; "localPort"; "localAddress"; "localFamily"].

(** [get _socket()]: [address] is what [native.getAddress] answers for an
    open connection and [new Array(6)] for a closed one. *)
Definition WebSocket_socket (getAddress : handle -> list value) (this : nat)
    : M (option query * list (string * value)) :=
  let* s := get_ws this in
  match external s with
  | Some h =>
      ret (Some (QGetAddress h),
           imap (fun i name => (name, arg i (getAddress h))) socket_fields)
  | None =>
      ret (None, imap (fun i name => (name, arg i (replicate 6 VUndefined))) socket_fields)
  end.

(** ** Vocabulary of the further statements *)

(** What a handler installed by [once] is called with, given what the slot
    is called with. *)
Definition once_kind_of (eventName : string) : once_kind :=
  if String.eqb eventName "message" then OnceMessage
  else if String.eqb eventName "open" then OnceOpen
  else if String.eqb eventName "close" then OnceClose
  else if String.eqb eventName "ping" then OncePing
  else OncePong.

(** The engine call by which a connection gives up its handle. *)
Definition shutdown_call (v : variant) (h : handle) (c : api_call) : list native_call :=
  match c with
  | Terminate => [NTerminate v h]
  | Close code data => [NClose v h code data]
  | _ => []
  end.

(** The character [c] does not occur in [s]. *)
Fixpoint free_of (c : Ascii.ascii) (s : string) : bool :=
  match s with
  | EmptyString => true
  | String a s' => negb (Ascii.eqb a c) && free_of c s'
  end.

(** [s] is empty or begins with [c]. *)
Definition empty_or_starts_with (c : Ascii.ascii) (s : string) : bool :=
  match s with
  | EmptyString => true
  | String a _ => Ascii.eqb a c
  end.

(** The transport [t] has exactly the listeners [l] and the listening state
    [b]. *)
Definition transport_is (t : nat) (l : list (string * listener)) (b : bool) (w : world)
    : Prop :=
  httpServers w !! t = Some (mkHttpServer l b).

(** The calls of functions of the caller among the entries of a trace. *)
Definition calls (l : list effect) : list (nat * list value) :=
  flat_map (fun e => match e with
                     | Called id args => [(id, args)]
                     | _ => []
                     end) l.

(** An engine that reports the connection while [native.upgrade] runs, for
    the server at address 0 and under the handle 40. *)
Definition connecting (c : native_call) : list engine_event :=
  match c with
  | NUpgrade _ _ _ _ _ => [EvServerConnection 0 40]
  | _ => []
  end.

(** * Properties *)

(** ** Reading and writing the store *)

Lemma get_ws_at w a s :
  websockets w !! a = Some s -> get_ws a w = (Ret s, w).
Proof. intros H. unfold get_ws. now rewrite H. Qed.

Lemma update_ws_at w a s f :
  websockets w !! a = Some s ->
  update_ws a f w = (Ret tt, with_websockets (<[a := f s]> (websockets w)) w).
Proof. intros H. unfold update_ws, bind. now rewrite (get_ws_at _ _ _ H). Qed.

Lemma updated_ws_at w a s x :
  websockets w !! a = Some s ->
  websockets (with_websockets (<[a := x]> (websockets w)) w) !! a = Some x.
Proof.
  intros H. simpl. apply list_lookup_insert_eq. eapply lookup_lt_Some, H.
Qed.

Lemma get_server_at w a s :
  servers w !! a = Some s -> get_server a w = (Ret s, w).
Proof. intros H. unfold get_server. now rewrite H. Qed.

Lemma update_server_at w a s f :
  servers w !! a = Some s ->
  update_server a f w = (Ret tt, with_servers (<[a := f s]> (servers w)) w).
Proof. intros H. unfold update_server, bind. now rewrite (get_server_at _ _ _ H). Qed.

Lemma get_http_at w a s :
  httpServers w !! a = Some s -> get_http a w = (Ret s, w).
Proof. intros H. unfold get_http. now rewrite H. Qed.

Lemma update_http_at w a s f :
  httpServers w !! a = Some s ->
  update_http a f w = (Ret tt, with_httpServers (<[a := f s]> (httpServers w)) w).
Proof. intros H. unfold update_http, bind. now rewrite (get_http_at _ _ _ H). Qed.

Ltac each_common_event H :=
  unfold common_events in H;
  repeat (destruct H as [H | H]; [subst | ]); try contradiction.

Lemma upd_at w a s x :
  websockets w !! a = Some s -> websockets (upd a x w) !! a = Some x.
Proof. apply updated_ws_at. Qed.

Lemma upd_upd w a x y : upd a y (upd a x w) = upd a y w.
Proof. unfold upd, with_websockets. cbn. now rewrite list_insert_insert_eq. Qed.

Lemma upd_same w a s : websockets w !! a = Some s -> upd a s w = w.
Proof.
  intros H. unfold upd, with_websockets. rewrite (list_insert_id _ _ _ H).
  now destruct w.
Qed.

Lemma update_ws_upd w a s f :
  websockets w !! a = Some s -> update_ws a f w = (Ret tt, upd a (f s) w).
Proof. apply update_ws_at. Qed.

Lemma when_update_ws w a s b f :
  websockets w !! a = Some s ->
  when b (update_ws a f) w = (Ret tt, upd a (if b then f s else s) w).
Proof.
  intros H. destruct b; cbn.
  - now apply update_ws_upd.
  - now rewrite (upd_same _ _ _ H).
Qed.

(** Rewriting a method body along the store, for the object [Hs] speaks
    of. *)
Ltac run_ws Hs :=
  repeat first
    [ rewrite (get_ws_at _ _ _ Hs)
    | rewrite (update_ws_upd _ _ _ _ Hs)
    | match goal with
      | |- context [update_ws ?a ?f ?w'] =>
          rewrite (update_ws_upd w' a _ f Hs)
      end
    | progress (unfold bind, ret, throw, when, fresh_id; cbn -[websockets]) ].

Ltac split_ifs :=
  repeat match goal with
         | |- context [if ?b then _ else _] => destruct b eqn:?
         end.

(** ** Registering and removing handlers *)

Lemma on_free w this s ev f :
  websockets w !! this = Some s ->
  In ev common_events \/ (ev = "error" /\ isClient s = true) ->
  slot_of ev s = Some Noop ->
  exists s', WebSocket.on this ev f w = (Ret tt, upd this s' w) /\ slot_of ev s' = Some f.
Proof.
  intros Hs [Hev | [-> Hc]] Hslot.
  - each_common_event Hev; cbv [slot_of] in Hslot; cbn in Hslot;
      unfold WebSocket.on; run_ws Hs; rewrite Hslot; cbn;
      rewrite (update_ws_upd _ _ _ _ Hs); eexists; (split; reflexivity).
  - cbv [slot_of] in Hslot; cbn in Hslot.
    unfold WebSocket.on; run_ws Hs. rewrite Hc, Hslot. cbn.
    rewrite (update_ws_upd _ _ _ _ Hs); eexists; (split; reflexivity).
Qed.

Lemma on_taken w this s ev f :
  websockets w !! this = Some s ->
  In ev common_events \/ (ev = "error" /\ isClient s = true) ->
  not_noop (slot_of ev s) = true ->
  WebSocket.on this ev f w = (Throw (Error EE_ERROR), w).
Proof.
  intros Hs [Hev | [-> Hc]] Hslot.
  - each_common_event Hev; cbv [slot_of] in Hslot; cbn in Hslot;
      unfold WebSocket.on; run_ws Hs; now rewrite Hslot.
  - cbv [slot_of] in Hslot; cbn in Hslot.
    unfold WebSocket.on; run_ws Hs. now rewrite Hc, Hslot.
Qed.

Lemma once_taken w this s ev f :
  websockets w !! this = Some s ->
  In ev common_events ->
  not_noop (slot_of ev s) = true ->
  WebSocket.once this ev f w = (Throw (Error EE_ERROR), w).
Proof.
  intros Hs Hev Hslot.
  each_common_event Hev; cbv [slot_of] in Hslot; cbn in Hslot;
    unfold WebSocket.once; run_ws Hs; now rewrite Hslot.
Qed.

Lemma removeAllListeners_at w this s name :
  websockets w !! this = Some s ->
  exists s',
    WebSocket.removeAllListeners this name w = (Ret tt, upd this s' w) /\
    forall ev, In ev common_events -> WebSocket.all_or name ev = true ->
               slot_of ev s' = Some Noop.
Proof.
  intros Hs. unfold WebSocket.removeAllListeners, bind.
  rewrite (when_update_ws _ _ _ _ _ Hs).
  do 4 rewrite (when_update_ws _ _ _ _ _ (upd_at _ _ _ _ Hs)), upd_upd.
  eexists. split; [reflexivity | ].
  intros ev Hev Hall. each_common_event Hev; rewrite Hall.
  all: split_ifs; reflexivity.
Qed.

Lemma removeListener_at w this s ev cb :
  websockets w !! this = Some s ->
  In ev common_events ->
  same_fn (slot_of ev s) cb = true ->
  exists s', WebSocket.removeListener this ev cb w = (Ret tt, upd this s' w) /\
             slot_of ev s' = Some Noop.
Proof.
  intros Hs Hev Hslot.
  each_common_event Hev; cbv [slot_of] in Hslot; cbn in Hslot;
    unfold WebSocket.removeListener; run_ws Hs; rewrite Hslot; cbn;
    rewrite (update_ws_upd _ _ _ _ Hs); eexists; (split; reflexivity).
Qed.

Lemma handler_of_upd w a s x ev :
  websockets w !! a = Some s -> handler_of (upd a x w) a ev = slot_of ev x.
Proof. intros H. unfold handler_of. now rewrite (upd_at _ _ _ _ H). Qed.

(** C3 (as amended).  On any connection, for each of the events message,
    open, close, ping and pong, and for ["error"] through [on] on a client
    connection: while the slot holds anything but the default [noop], [on]
    throws the duplicate listener error and changes nothing, and so does
    [once] for the five common events; once the slot holds [noop], [on]
    returns and installs [f]; and [removeAllListeners] (without a name or
    with this one) and [removeListener] of the installed handler reset the
    slot of a common event, after which [on] returns and installs [f]. *)
Theorem duplicate_listener_rejected w this s ev f :
  websockets w !! this = Some s ->
  In ev common_events \/ (ev = "error" /\ isClient s = true) ->
  (not_noop (slot_of ev s) = true ->
     WebSocket.on this ev f w = (Throw (Error EE_ERROR), w) /\
     (In ev common_events ->
      WebSocket.once this ev f w = (Throw (Error EE_ERROR), w))) /\
  (slot_of ev s = Some Noop ->
     exists w', WebSocket.on this ev f w = (Ret tt, w') /\
                handler_of w' this ev = Some f) /\
  (In ev common_events ->
     (forall name, WebSocket.all_or name ev = true ->
        let w1 := snd (WebSocket.removeAllListeners this name w) in
        handler_of w1 this ev = Some Noop /\
        exists w2, WebSocket.on this ev f w1 = (Ret tt, w2) /\
                   handler_of w2 this ev = Some f) /\
     (forall cb, same_fn (slot_of ev s) cb = true ->
        let w1 := snd (WebSocket.removeListener this ev cb w) in
        handler_of w1 this ev = Some Noop /\
        exists w2, WebSocket.on this ev f w1 = (Ret tt, w2) /\
                   handler_of w2 this ev = Some f)).
Proof.
  intros Hs Hev. split; [ | split].
  - intros Hslot. split.
    + now apply (on_taken _ _ s).
    + intros Hc. now apply (once_taken _ _ s).
  - intros Hslot. destruct (on_free w this s ev f Hs Hev Hslot) as (s' & -> & Hs').
    eexists. split; [reflexivity | ]. now rewrite (handler_of_upd _ _ s).
  - intros Hc. split.
    + intros name Hname.
      destruct (removeAllListeners_at w this s name Hs) as (s1 & -> & H1).
      cbn [snd]. specialize (H1 ev Hc Hname).
      split; [now rewrite (handler_of_upd _ _ s) | ].
      destruct (on_free (upd this s1 w) this s1 ev f (upd_at _ _ _ _ Hs) (or_introl Hc) H1)
        as (s2 & -> & H2).
      eexists. split; [reflexivity | ].
      now rewrite (handler_of_upd _ _ s1) by exact (upd_at _ _ _ _ Hs).
    + intros cb Hcb.
      destruct (removeListener_at w this s ev cb Hs Hc Hcb) as (s1 & -> & H1).
      cbn [snd]. split; [now rewrite (handler_of_upd _ _ s) | ].
      destruct (on_free (upd this s1 w) this s1 ev f (upd_at _ _ _ _ Hs) (or_introl Hc) H1)
        as (s2 & -> & H2).
      eexists. split; [reflexivity | ].
      now rewrite (handler_of_upd _ _ s1) by exact (upd_at _ _ _ _ Hs).
Qed.

Lemma duplicate_listener_rejected_witness :
  let s := set_internalOnMessage (Some (UserFn 1)) (server_ws (Some 7%nat)) in
  let w := world_of [s] in
  websockets w !! 0%nat = Some s /\
  In "message" common_events /\
  not_noop (slot_of "message" s) = true /\
  WebSocket.on 0 "message" (UserFn 2) w = (Throw (Error EE_ERROR), w) /\
  WebSocket.once 0 "message" (UserFn 2) w = (Throw (Error EE_ERROR), w) /\
  exists w2,
    WebSocket.on 0 "message" (UserFn 2)
      (snd (WebSocket.removeListener 0 "message" (UserFn 1) w)) = (Ret tt, w2) /\
    handler_of w2 0 "message" = Some (UserFn 2).
Proof.
  intros s w.
  assert (Hev : In "message" common_events) by (left; reflexivity).
  destruct (duplicate_listener_rejected w 0%nat s "message" (UserFn 2)
              eq_refl (or_introl Hev)) as (Htaken & _ & Hremove).
  destruct (Htaken eq_refl) as (Hon & Honce).
  destruct (Hremove Hev) as (_ & Hrl).
  destruct (Hrl (UserFn 1) eq_refl) as (_ & Hagain).
  split; [reflexivity | ].
  split; [exact Hev | ].
  split; [reflexivity | ].
  split; [exact Hon | ].
  split; [exact (Honce Hev) | exact Hagain].
Defined.

(** C3, as stated, fails for ["error"]: with a handler registered on a
    client connection, [once('error', f)] does not throw. *)
Lemma once_error_is_not_rejected :
  let w0 := world_of [client_ws None] in
  let w1 := snd (WebSocket.on 0 "error" (UserFn 1) w0) in
  handler_of w1 0 "error" = Some (UserFn 1) /\
  not_noop (handler_of w1 0 "error") = true /\
  WebSocket.once 0 "error" (UserFn 2) w1 = (Ret tt, w1).
Proof. vm_compute. repeat split. Qed.

(** For ["error"] neither removal method resets the slot, so the handler
    registered first stays and a second [on('error', f)] is refused. *)
Lemma error_handler_cannot_be_removed :
  let w0 := world_of [client_ws None] in
  let w1 := snd (WebSocket.on 0 "error" (UserFn 1) w0) in
  WebSocket.removeListener 0 "error" (UserFn 1) w1 = (Ret tt, w1) /\
  handler_of (snd (WebSocket.removeAllListeners 0 None w1)) 0 "error" = Some (UserFn 1) /\
  WebSocket.on 0 "error" (UserFn 2) w1 = (Throw (Error EE_ERROR), w1).
Proof. vm_compute. repeat split. Qed.

(** ** Server-side connections and the error event *)

Lemma registration_keeps_error react w this s c :
  websockets w !! this = Some s ->
  isClient s = false ->
  is_registration c ->
  exists s', websockets (snd (perform react this c w)) !! this = Some s' /\
             isClient s' = false /\
             internalOnError s' = internalOnError s.
Proof.
  intros Hs Hc Hreg. destruct c; try contradiction; cbn [perform].
  - unfold WebSocket.on. run_ws Hs. rewrite Hc, andb_false_r.
    split_ifs; run_ws Hs;
      first [ now exists s
            | eexists; split; [eapply upd_at, Hs | now split] ].
  - unfold WebSocket.once. run_ws Hs.
    split_ifs; run_ws Hs;
      first [ now exists s
            | eexists; split; [eapply upd_at, Hs | now split] ].
Qed.

Lemma registrations_keep_error react calls : forall w this s,
  websockets w !! this = Some s ->
  isClient s = false ->
  Forall is_registration calls ->
  handler_of (run react (map (Call this) calls) w) this "error" = internalOnError s.
Proof.
  induction calls as [ | c calls IH]; intros w this s Hs Hc Hall.
  - cbn. unfold handler_of. now rewrite Hs.
  - inversion Hall as [ | ? ? Hreg Hrest]; subst. cbn [map run fold_left run_step].
    destruct (registration_keeps_error react w this s c Hs Hc Hreg) as (s' & Hs' & Hc' & He).
    fold (run react (map (Call this) calls) (snd (perform react this c w))).
    rewrite (IH _ _ s' Hs' Hc' Hrest). exact He.
Qed.

(** C10.  On a server-side connection [on('error', f)] and
    [once('error', f)] return and leave the world as it is, and no sequence
    of [on] and [once] calls, whatever the event names, changes the error
    slot. *)
Theorem server_connection_ignores_error_registration react w this s f :
  websockets w !! this = Some s ->
  isClient s = false ->
  WebSocket.on this "error" f w = (Ret tt, w) /\
  WebSocket.once this "error" f w = (Ret tt, w) /\
  forall calls, Forall is_registration calls ->
    handler_of (run react (map (Call this) calls) w) this "error" = internalOnError s.
Proof.
  intros Hs Hc. split; [ | split].
  - unfold WebSocket.on. run_ws Hs. now rewrite Hc.
  - unfold WebSocket.once. now run_ws Hs.
  - intros calls Hall. now apply registrations_keep_error.
Qed.

Lemma server_connection_ignores_error_registration_witness :
  let w := world_of [server_ws (Some 7%nat)] in
  websockets w !! 0%nat = Some (server_ws (Some 7%nat)) /\
  isClient (server_ws (Some 7%nat)) = false /\
  WebSocket.on 0 "error" (UserFn 1) w = (Ret tt, w) /\
  WebSocket.once 0 "error" (UserFn 1) w = (Ret tt, w) /\
  handler_of (run quiet [Call 0 (On "error" (UserFn 1)); Call 0 (Once "error" (UserFn 2));
                         Call 0 (On "error" (UserFn 3))] w) 0 "error" = None.
Proof.
  intros w.
  destruct (server_connection_ignores_error_registration quiet w 0%nat
              (server_ws (Some 7%nat)) (UserFn 1) eq_refl eq_refl) as (Hon & Honce & Hall).
  split; [reflexivity | ].
  split; [reflexivity | ].
  split; [exact Hon | ].
  split; [exact Honce | ].
  apply (Hall [On "error" (UserFn 1); Once "error" (UserFn 2); On "error" (UserFn 3)]).
  repeat constructor.
Defined.

(** ** Invariants of computations *)

Section Preservation.

Context (P : world -> Prop).

Lemma preserves_ret {A} (a : A) : preserves P (ret a).
Proof. intros w H. exact H. Qed.

Lemma preserves_throw {A} e : preserves P (@throw A e).
Proof. intros w H. exact H. Qed.

Lemma preserves_gets {A} (f : world -> A) : preserves P (gets f).
Proof. intros w H. exact H. Qed.

Lemma preserves_bind {A B} (m : M A) (k : A -> M B) :
  preserves P m -> (forall a, preserves P (k a)) -> preserves P (bind m k).
Proof.
  intros Hm Hk w H. unfold bind. specialize (Hm w H).
  destruct (m w) as [[a | e] w']; cbn in *.
  - now apply Hk.
  - exact Hm.
Qed.

Lemma preserves_modify f : (forall w, P w -> P (f w)) -> preserves P (modify f).
Proof. intros Hf w H. now apply Hf. Qed.

Lemma preserves_when b m : preserves P m -> preserves P (when b m).
Proof. intros Hm. destruct b; [exact Hm | apply preserves_ret]. Qed.

Lemma preserves_for_each {A} (l : list A) body :
  (forall x, In x l -> preserves P (body x)) -> preserves P (for_each l body).
Proof.
  induction l as [ | x l IH]; intros Hbody; cbn [for_each].
  - apply preserves_ret.
  - apply preserves_bind.
    + apply Hbody. now left.
    + intros _. apply IH. intros y Hy. apply Hbody. now right.
Qed.

End Preservation.

(** Taking a computation apart along its binds and case distinctions. *)
Ltac preserve_step :=
  first
    [ apply preserves_ret
    | apply preserves_throw
    | apply preserves_gets
    | apply preserves_bind; [ | intros ? ]
    | apply preserves_when
    | match goal with
      | |- preserves _ (match ?x with _ => _ end) => destruct x
      end ].

(** ** A closed connection stays closed *)

Section Closed.

Variable a : nat.

Lemma closed_log e : preserves (closed a) (log e).
Proof. apply preserves_modify. intros w H. exact H. Qed.

Lemma closed_nextTick t : preserves (closed a) (nextTick t).
Proof. apply preserves_modify. intros w H. exact H. Qed.

Lemma closed_fresh_id : preserves (closed a) fresh_id.
Proof. intros w H. exact H. Qed.

Lemma closed_get_ws b : preserves (closed a) (get_ws b).
Proof. intros w H. unfold get_ws. now destruct (websockets w !! b). Qed.

Lemma closed_new_ws s : preserves (closed a) (new_ws s).
Proof.
  intros w (s0 & Hs0 & He). exists s0. split; [ | exact He].
  cbn. rewrite lookup_app_l; [exact Hs0 | eapply lookup_lt_Some, Hs0].
Qed.

Lemma closed_get_server b : preserves (closed a) (get_server b).
Proof. intros w H. unfold get_server. now destruct (servers w !! b). Qed.

Lemma closed_update_ws b f :
  b <> a \/ (forall s, external s = None -> external (f s) = None) ->
  preserves (closed a) (update_ws b f).
Proof.
  intros Hf w (s0 & Hs0 & He). unfold update_ws, bind, get_ws.
  destruct (websockets w !! b) as [s | ] eqn:Hb; cbn; [ | now exists s0].
  destruct (decide (b = a)) as [-> | Hne].
  - rewrite Hs0 in Hb. injection Hb as <-.
    exists (f s0). split.
    + apply list_lookup_insert_eq. eapply lookup_lt_Some, Hs0.
    + destruct Hf as [Hf | Hf]; [contradiction | now apply Hf].
  - exists s0. split; [ | exact He]. cbn. now rewrite list_lookup_insert_ne.
Qed.

Lemma closed_update_slot b f :
  (forall s, external (f s) = external s) -> preserves (closed a) (update_ws b f).
Proof. intros Hf. apply closed_update_ws. right. intros s Hs. now rewrite Hf. Qed.

Lemma closed_call_fn f : forall args, preserves (closed a) (call_fn f args).
Proof.
  induction f as [ | id | addr f IH | addr f IH | addr k this f IH]; intros args;
    cbn [call_fn].
  - apply preserves_ret.
  - apply closed_log.
  - apply IH.
  - apply IH.
  - apply preserves_bind; [ | intros _; apply IH].
    apply closed_update_slot. intros s. now destruct k.
Qed.

Lemma closed_call_slot slot args : preserves (closed a) (call_slot slot args).
Proof. destruct slot; [apply closed_call_fn | apply preserves_throw]. Qed.

Lemma closed_call_value v args : preserves (closed a) (call_value v args).
Proof. destruct v; try apply preserves_throw. apply closed_call_fn. Qed.

Lemma closed_update_server b f : preserves (closed a) (update_server b f).
Proof.
  unfold update_server. apply preserves_bind; [apply closed_get_server | ].
  intros s. apply preserves_modify. intros w H. exact H.
Qed.

Ltac closed_step :=
  first
    [ apply closed_log | apply closed_nextTick | apply closed_fresh_id
    | apply closed_get_ws | apply closed_new_ws | apply closed_get_server
    | apply closed_update_server
    | apply closed_call_fn | apply closed_call_slot | apply closed_call_value
    | apply closed_update_slot; intros ?; reflexivity
    | apply closed_update_ws; right; intros ? ?; reflexivity
    | apply closed_update_ws; left; assumption
    | apply preserves_modify; intros ? ?; assumption
    | preserve_step ].

Lemma closed_dispatch ev : ~ opens a ev -> preserves (closed a) (dispatch ev).
Proof.
  intros Hev. destruct ev; cbn [dispatch]; unfold call_upgrade_callback, nextTick_value,
    WebSocket.constructor.
  all: cbn in Hev; repeat closed_step.
Qed.

Variable react : native_call -> list engine_event.
Hypothesis react_never_opens : forall c ev, In ev (react c) -> ~ opens a ev.

Lemma closed_native c : preserves (closed a) (native react c).
Proof.
  unfold native. apply preserves_bind; [apply closed_log | intros _].
  apply preserves_for_each. intros ev Hev. eapply closed_dispatch, react_never_opens, Hev.
Qed.

Lemma closed_perform b c : preserves (closed a) (perform react b c).
Proof.
  destruct c; cbn [perform];
    unfold send, ping, terminate, close, WebSocket.on, WebSocket.once,
      WebSocket.removeAllListeners, WebSocket.removeListener, WebSocket.emit,
      WebSocket.set_onmessage, WebSocket.set_onopen, WebSocket.set_onclose,
      WebSocket.set_onerror.
  all: repeat first [ apply closed_native | closed_step ].
Qed.

Lemma closed_run_tick : preserves (closed a) run_tick.
Proof. unfold run_tick, run_task. repeat closed_step. Qed.

Lemma closed_run_step st : ~ step_opens a st -> preserves (closed a) (run_step react st).
Proof.
  intros Hst. destruct st; cbn [run_step].
  - apply closed_perform.
  - now apply closed_dispatch.
  - apply closed_run_tick.
Qed.

Lemma closed_run steps : forall w,
  Forall (fun st => ~ step_opens a st) steps ->
  closed a w -> closed a (run react steps w).
Proof.
  induction steps as [ | st steps IH]; intros w Hall Hw; [exact Hw | ].
  inversion Hall as [ | ? ? Hst Hrest]; subst. cbn [run fold_left].
  apply IH; [exact Hrest | ]. now apply closed_run_step.
Qed.

End Closed.

(** ** terminate, close and send *)

Lemma update_ws_returns w a f w' :
  update_ws a f w = (Ret tt, w') ->
  exists s, websockets w !! a = Some s /\ w' = upd a (f s) w.
Proof.
  unfold update_ws, bind, get_ws.
  destruct (websockets w !! a) as [s | ]; [ | discriminate].
  cbn. intros [= <-]. now exists s.
Qed.

Lemma then_closed {A} (m : M A) this w w1 :
  bind m (fun _ => update_ws this (set_external None)) w = (Ret tt, w1) ->
  closed this w1.
Proof.
  unfold bind at 1. destruct (m w) as [[x | e] w']; [ | discriminate].
  intros H. apply update_ws_returns in H as (s & Hs & ->).
  eexists. split; [eapply upd_at, Hs | reflexivity].
Qed.

Lemma terminate_closes react this w w1 :
  terminate react this w = (Ret tt, w1) -> closed this w1.
Proof.
  unfold terminate. unfold bind at 1, get_ws.
  destruct (websockets w !! this) as [s | ] eqn:Hs; [ | discriminate].
  destruct (external s) eqn:He.
  - apply then_closed.
  - intros [= <-]. now exists s.
Qed.

Lemma close_closes react this code data w w1 :
  close react this code data w = (Ret tt, w1) -> closed this w1.
Proof.
  unfold close. unfold bind at 1, get_ws.
  destruct (websockets w !! this) as [s | ] eqn:Hs; [ | discriminate].
  destruct (external s) eqn:He.
  - apply then_closed.
  - intros [= <-]. now exists s.
Qed.

Lemma send_when_closed react this w message options cb compress :
  closed this w ->
  send react this message options cb compress w =
  if truthy cb then call_value cb [VError "not opened"] w else (Ret tt, w).
Proof.
  intros (s & Hs & He). unfold send. run_ws Hs. rewrite He.
  now destruct (truthy cb).
Qed.

Lemma closed_readyState this w :
  closed this w ->
  exists s, websockets w !! this = Some s /\ WebSocket.readyState s = CLOSED.
Proof.
  intros (s & Hs & He). exists s. split; [exact Hs | ].
  unfold WebSocket.readyState. now rewrite He.
Qed.

(** C1 (as amended).  After [terminate()] or [close()] has returned,
    [readyState] reads CLOSED, and it keeps reading CLOSED through every
    run of method calls, engine callbacks and scheduling turns in which the
    engine does not report that connection open; at the end of such a run
    [send] calls nothing in the engine and returns: given a function of the
    caller as [cb] it calls it with the error 'not opened', given a falsy
    [cb] it does nothing. *)
Theorem closed_connection_refuses_send react this w w1 steps message options cb compress :
  (terminate react this w = (Ret tt, w1) \/
   exists code data, close react this code data w = (Ret tt, w1)) ->
  (forall c ev, In ev (react c) -> ~ opens this ev) ->
  Forall (fun st => ~ step_opens this st) steps ->
  let w2 := run react steps w1 in
  (exists s, websockets w1 !! this = Some s /\ WebSocket.readyState s = CLOSED) /\
  (exists s, websockets w2 !! this = Some s /\ WebSocket.readyState s = CLOSED) /\
  (forall id, cb = VFun (UserFn id) ->
     send react this message options cb compress w2 =
     (Ret tt, with_trace (trace w2 ++ [Called id [VError "not opened"]]) w2)) /\
  (truthy cb = false ->
     send react this message options cb compress w2 = (Ret tt, w2)).
Proof.
  intros Hret Hreact Hsteps w2.
  assert (H1 : closed this w1).
  { destruct Hret as [Hret | (code & data & Hret)].
    - eapply terminate_closes, Hret.
    - eapply close_closes, Hret. }
  assert (H2 : closed this w2) by now apply closed_run.
  split; [now apply closed_readyState | ].
  split; [now apply closed_readyState | ].
  split.
  - intros id ->. now rewrite send_when_closed.
  - intros Hcb. rewrite send_when_closed by assumption. now rewrite Hcb.
Qed.

Lemma closed_connection_refuses_send_witness :
  let w := world_of [server_ws (Some 7%nat); client_ws None] in
  let w1 := snd (terminate quiet 0 w) in
  let steps := [Call 0 (On "message" (UserFn 2)); Engine (EvMessage ClientGroup (VStr "m") 0);
                Engine (EvDisconnection (ServerGroupOf 0) 7 (VNum 1006) (VStr "") 0);
                Turn; Call 0 (Close (VNum 1000) (VStr "bye"));
                Engine (EvClientConnection 9 1); Call 1 (Ping VUndefined)] in
  let w2 := run quiet steps w1 in
  terminate quiet 0 w = (Ret tt, w1) /\
  (forall c ev, In ev (quiet c) -> ~ opens 0 ev) /\
  Forall (fun st => ~ step_opens 0 st) steps /\
  send quiet 0 (VStr "x") VNull (VFun (UserFn 1)) VUndefined w2 =
  (Ret tt, with_trace (trace w2 ++ [Called 1 [VError "not opened"]]) w2) /\
  send quiet 0 (VStr "x") VNull VUndefined VUndefined w2 = (Ret tt, w2).
Proof.
  intros w w1 steps w2.
  assert (Hret : terminate quiet 0 w = (Ret tt, w1)) by reflexivity.
  assert (Hreact : forall c ev, In ev (quiet c) -> ~ opens 0 ev) by (intros c ev []).
  assert (Hsteps : Forall (fun st => ~ step_opens 0 st) steps).
  { repeat constructor; cbn; try tauto; discriminate. }
  destruct (closed_connection_refuses_send quiet 0%nat w w1 steps (VStr "x") VNull
              (VFun (UserFn 1)) VUndefined (or_introl Hret) Hreact Hsteps)
    as (_ & _ & Hcb & _).
  destruct (closed_connection_refuses_send quiet 0%nat w w1 steps (VStr "x") VNull
              VUndefined VUndefined (or_introl Hret) Hreact Hsteps)
    as (_ & _ & _ & Hnone).
  split; [exact Hret | ].
  split; [exact Hreact | ].
  split; [exact Hsteps | ].
  split; [exact (Hcb 1%nat eq_refl) | exact (Hnone eq_refl)].
Defined.

(** C1, as stated, fails for a client connection that is closed while it
    is still connecting: [close()] returns and [readyState] reads CLOSED,
    the engine then reports the connection open, and the next [send] goes
    to the engine. *)
Lemma send_after_close_reaches_engine :
  let w0 := snd (WebSocketClient_constructor quiet (VStr "ws://peer") (world_of [])) in
  let w1 := snd (close quiet 0 (VNum 1000) (VStr "done") w0) in
  let w2 := snd (dispatch (EvClientConnection 7 0) w1) in
  close quiet 0 (VNum 1000) (VStr "done") w0 = (Ret tt, w1) /\
  (WebSocket.readyState <$> websockets w1 !! 0%nat) = Some CLOSED /\
  (WebSocket.readyState <$> websockets w2 !! 0%nat) = Some OPEN /\
  send quiet 0 (VStr "x") VUndefined VUndefined VUndefined w2 =
  (Ret tt,
   with_trace (trace w2 ++ [Native (NSend ClientSide 7 (VStr "x") OPCODE_TEXT
                                      NoCompletion VUndefined)]) w2).
Proof. vm_compute. repeat split. Qed.

(** ** When the completion callback of send runs *)

Lemma completions_only_queue l : forall w,
  (forall ev, In ev l -> exists g, ev = EvCompletion (VFun g)) ->
  for_each l dispatch w = (Ret tt, with_ticks (ticks w ++ queued l) w).
Proof.
  induction l as [ | ev l IH]; intros w Hl.
  - cbn. rewrite app_nil_r. now destruct w.
  - destruct (Hl ev (or_introl eq_refl)) as (g & ->).
    cbn [for_each]. unfold bind. cbn [dispatch nextTick_value nextTick modify].
    rewrite IH by (intros ev Hev; apply Hl; now right).
    cbn. now rewrite <- app_assoc.
Qed.

(** C2 (as amended).  With an engine that, while a native call runs, calls
    back nothing but completion wrappers: on an open connection [send]
    with a function [f] as completion callback (third argument, or second
    when it stands in the place of the options) calls no function at all,
    it hands the engine a wrapper of [f]; whenever the engine calls that
    wrapper, [f] is only queued for a later scheduling turn, and it runs
    when its turn comes.  On a closed connection [send] itself calls the
    function given as third argument, with the error 'not opened'. *)
Theorem send_defers_completion react w this s message options cb compress :
  websockets w !! this = Some s ->
  (forall c ev, In ev (react c) -> exists g, ev = EvCompletion (VFun g)) ->
  match external s with
  | Some h =>
      forall f, (if String.eqb (typeof options) "function" then options else cb) = VFun f ->
      let options' := if String.eqb (typeof options) "function" then VNull else options in
      let c := NSend (variant_of s) h message (opcode_for message options')
                 (Wrapper (VFun f)) compress in
        send react this message options cb compress w =
          (Ret tt, with_ticks (ticks w ++ queued (react c))
                     (with_trace (trace w ++ [Native c]) w)) /\
        (forall w', dispatch (EvCompletion (VFun f)) w' =
                    (Ret tt, with_ticks (ticks w' ++ [TCallback f]) w')) /\
        (forall w', run_task (TCallback f) w' = call_fn f [] w')
  | None =>
      forall f, cb = VFun f ->
      send react this message options cb compress w = call_fn f [VError "not opened"] w
  end.
Proof.
  intros Hs Hreact. destruct (external s) as [h | ] eqn:He.
  - intros f Hf. cbv zeta. split; [ | split; [reflexivity | reflexivity]].
    unfold send. run_ws Hs. rewrite He, Hf. cbn [truthy].
    unfold native, bind, log, modify.
    now rewrite completions_only_queue by apply Hreact.
  - intros f ->. unfold send. run_ws Hs. now rewrite He.
Qed.

Lemma send_defers_completion_witness :
  let w := world_of [server_ws (Some 7%nat)] in
  let c := NSend ServerSide 7 (VStr "x") OPCODE_TEXT (Wrapper (VFun (UserFn 1))) VUndefined in
  websockets w !! 0%nat = Some (server_ws (Some 7%nat)) /\
  (forall c ev, In ev (eager c) -> exists g, ev = EvCompletion (VFun g)) /\
  send eager 0 (VStr "x") VNull (VFun (UserFn 1)) VUndefined w =
  (Ret tt, with_ticks [TCallback (UserFn 1)] (with_trace [Native c] w)).
Proof.
  intros w c.
  assert (Heager : forall c ev, In ev (eager c) -> exists g, ev = EvCompletion (VFun g)).
  { intros [ ? ? ? ? [ | | [ ] ] ? | | | | | | | | ] ev; cbn; try tauto.
    intros [<- | []]. now eexists. }
  pose proof (send_defers_completion eager w 0%nat (server_ws (Some 7%nat)) (VStr "x") VNull
                (VFun (UserFn 1)) VUndefined eq_refl Heager) as H.
  cbn [external server_ws] in H.
  destruct (H (UserFn 1) eq_refl) as (Hsend & _).
  split; [reflexivity | ].
  split; [exact Heager | ].
  rewrite Hsend. reflexivity.
Defined.

(** C2, as stated, fails on the closed path: [send] on a closed connection
    calls the completion callback before it returns, and queues nothing. *)
Lemma completion_runs_inside_send_when_closed :
  let w := world_of [server_ws None] in
  send quiet 0 (VStr "x") VUndefined (VFun (UserFn 1)) VUndefined w =
  (Ret tt, with_trace [Called 1 [VError "not opened"]] w) /\
  ticks (snd (send quiet 0 (VStr "x") VUndefined (VFun (UserFn 1)) VUndefined w)) = [].
Proof. vm_compute. split; reflexivity. Qed.

(** ** Delivery of the close event *)

(** Calling a function value touches the connection objects only, and
    adds to the trace no call into the engine. *)
Section CallFrame.

Context (P : world -> Prop).
Hypothesis P_websockets : forall w l, P w -> P (with_websockets l w).
Hypothesis P_log :
  forall w e, natives [e] = [] -> P w -> P (with_trace (trace w ++ [e]) w).

Lemma frame_update_ws a f : preserves P (update_ws a f).
Proof.
  unfold update_ws. apply preserves_bind.
  - intros w H. unfold get_ws. now destruct (websockets w !! a).
  - intros s. apply preserves_modify. intros w H. now apply P_websockets.
Qed.

Lemma frame_call_fn f : forall args, preserves P (call_fn f args).
Proof.
  induction f as [ | id | addr f IH | addr f IH | addr k this f IH]; intros args;
    cbn [call_fn].
  - apply preserves_ret.
  - apply preserves_modify. intros w H. now apply P_log.
  - apply IH.
  - apply IH.
  - apply preserves_bind; [apply frame_update_ws | intros _; apply IH].
Qed.

Lemma frame_run_task t : preserves P (run_task t).
Proof.
  destruct t; cbn [run_task]; [apply frame_call_fn | | ];
    (apply preserves_bind;
     [ intros w H; unfold get_ws; now destruct (websockets w !! ws)
     | intros s; destruct s; cbn [internalOnClose internalOnError call_slot] ]).
  - destruct internalOnClose0; [apply frame_call_fn | apply preserves_throw].
  - destruct internalOnError0; [apply frame_call_fn | apply preserves_throw].
Qed.

End CallFrame.

Lemma run_task_frame t w :
  ticks (snd (run_task t w)) = ticks w /\
  userData (snd (run_task t w)) = userData w.
Proof.
  apply (frame_run_task (fun w' => ticks w' = ticks w /\ userData w' = userData w)).
  - intros w' l H. exact H.
  - intros w' e _ H. exact H.
  - now split.
Qed.

Lemma run_tick_frame w :
  ticks (snd (run_tick w)) = tail (ticks w) /\
  userData (snd (run_tick w)) = userData w.
Proof.
  unfold run_tick, bind, gets. destruct (ticks w) as [ | t q] eqn:Hq; cbn.
  - now rewrite Hq.
  - destruct (run_task_frame t (with_ticks q w)) as (Ht & Hu).
    unfold bind, modify. cbn. now rewrite Ht, Hu.
Qed.

Lemma turns_S n w : turns (S n) w = snd (run_tick (turns n w)).
Proof. reflexivity. Qed.

Lemma turns_frame n : forall w,
  ticks (turns n w) = drop n (ticks w) /\ userData (turns n w) = userData w.
Proof.
  induction n as [ | n IH]; intros w; [now split | ].
  rewrite turns_S.
  destruct (run_tick_frame (turns n w)) as (Ht & Hu), (IH w) as (Ht' & Hu').
  rewrite Ht, Hu, Ht', Hu'. split; [ | reflexivity].
  replace (tail (drop n (ticks w))) with (drop 1 (drop n (ticks w)))
    by now destruct (drop n (ticks w)).
  rewrite drop_drop. f_equal. lia.
Qed.

Lemma closed_turns a n : forall w, closed a w -> closed a (turns n w).
Proof.
  induction n as [ | n IH]; intros w Hw; [exact Hw | ].
  rewrite turns_S. apply closed_run_tick. now apply IH.
Qed.

(** C8.  When the engine reports a disconnection (the callback is the same
    for the client group and for every server group), nothing is called
    during the callback: the connection's handle is set to absent, the
    close notification is queued behind what is already waiting, and the
    handle's user data is cleared.  At every later scheduling turn
    [readyState] reads CLOSED and the user data is still cleared; the
    notification runs in the turn after the ones queued before it, where it
    calls the close handler registered by then. *)
Theorem close_handler_runs_after_invalidation g ext code message ws w s :
  websockets w !! ws = Some s ->
  let w1 := snd (dispatch (EvDisconnection g ext code message ws) w) in
  dispatch (EvDisconnection g ext code message ws) w = (Ret tt, w1) /\
  trace w1 = trace w /\
  ticks w1 = ticks w ++ [TClose ws code message] /\
  (forall n,
     (exists s2, websockets (turns n w1) !! ws = Some s2 /\
                 WebSocket.readyState s2 = CLOSED) /\
     userData (turns n w1) !! ext = None) /\
  (let w2 := turns (length (ticks w)) w1 in
   exists s2,
     websockets w2 !! ws = Some s2 /\
     WebSocket.readyState s2 = CLOSED /\
     userData w2 !! ext = None /\
     ticks w2 = [TClose ws code message] /\
     run_tick w2 = call_slot (internalOnClose s2) [code; message] (with_ticks [] w2)).
Proof.
  intros Hs w1.
  assert (Hrun : dispatch (EvDisconnection g ext code message ws) w =
                 (Ret tt, with_userData (delete ext (userData w))
                            (with_ticks (ticks w ++ [TClose ws code message])
                               (upd ws (set_external None s) w)))).
  { cbn [dispatch]. now run_ws Hs. }
  assert (Hclosed : closed ws w1).
  { subst w1. rewrite Hrun. exists (set_external None s). split; [ | reflexivity].
    cbn. apply list_lookup_insert_eq. eapply lookup_lt_Some, Hs. }
  assert (Hticks : ticks w1 = ticks w ++ [TClose ws code message]).
  { subst w1. now rewrite Hrun. }
  assert (Hdata : forall n, userData (turns n w1) !! ext = None).
  { intros n. destruct (turns_frame n w1) as (_ & ->). subst w1. rewrite Hrun. cbn.
    apply lookup_delete_eq. }
  split; [subst w1; now rewrite Hrun | ].
  split; [subst w1; now rewrite Hrun | ].
  split; [exact Hticks | ].
  split.
  - intros n. split; [ | apply Hdata].
    apply closed_readyState. now apply closed_turns.
  - cbv zeta.
    destruct (closed_readyState ws _ (closed_turns ws (length (ticks w)) w1 Hclosed))
      as (s2 & Hs2 & Hready).
    assert (Hq : ticks (turns (length (ticks w)) w1) = [TClose ws code message]).
    { destruct (turns_frame (length (ticks w)) w1) as (-> & _).
      rewrite Hticks. now rewrite drop_app_length. }
    exists s2. split; [exact Hs2 | ]. split; [exact Hready | ].
    split; [apply Hdata | ]. split; [exact Hq | ].
    unfold run_tick, bind, gets. rewrite Hq. cbn [modify run_task].
    unfold bind, get_ws. cbn. now rewrite Hs2.
Qed.

Lemma close_handler_runs_after_invalidation_witness :
  let s := set_internalOnClose (Some (UserFn 3)) (server_ws (Some 7%nat)) in
  let w := with_userData (<[7%nat := 0%nat]> ∅)
             (with_ticks [TCallback (UserFn 1)] (world_of [s])) in
  let w1 := snd (dispatch (EvDisconnection (ServerGroupOf 0) 7 (VNum 1000) (VStr "done") 0) w) in
  websockets w !! 0%nat = Some s /\
  trace w1 = [] /\
  ticks w1 = [TCallback (UserFn 1); TClose 0 (VNum 1000) (VStr "done")] /\
  trace (turns 1 w1) = [Called 1 []] /\
  trace (turns 2 w1) = [Called 1 []; Called 3 [VNum 1000; VStr "done"]].
Proof.
  intros s w w1.
  destruct (close_handler_runs_after_invalidation (ServerGroupOf 0) 7%nat (VNum 1000)
              (VStr "done") 0%nat w s eq_refl) as (_ & Htrace & Hticks & _ & _).
  split; [reflexivity | ].
  split; [exact Htrace | ].
  split; [exact Hticks | ].
  split; reflexivity.
Defined.

(** ** handleUpgrade *)

(** C4.  For a socket that does not come from the engine, when the socket
    has no handle, or the request has no [sec-websocket-key] header, or the
    key is not 24 characters long, [handleUpgrade] returns having destroyed
    the socket and done nothing else but, for a TLS socket, query its TLS
    state: nothing is written to the socket, nothing is transferred to the
    engine, no listener is left on the socket, and the server is
    untouched. *)
Theorem invalid_handshake_is_dropped react w this r sock head callback :
  _isNative sock = false ->
  socket_handle sock = None \/
  headers r !! "sec-websocket-key" = None \/
  (exists k, headers r !! "sec-websocket-key" = Some k /\ String.length k <> 24%nat) ->
  handleUpgrade react this r sock head callback w =
  (Ret tt, with_trace (trace w ++ ssl_query sock ++ [SockDestroy (sock_id sock)]) w).
Proof.
  intros Hnative Hbad. unfold handleUpgrade. rewrite Hnative.
  assert (Hskip :
    match socket_handle sock, headers r !! "sec-websocket-key" with
    | Some h, Some k => negb (String.eqb k "") && Nat.eqb (String.length k) 24 = false
    | _, _ => True
    end).
  { destruct Hbad as [-> | [-> | (k & -> & Hk)]]; try exact I.
    - now destruct (socket_handle sock).
    - destruct (socket_handle sock); [ | exact I].
      apply andb_false_iff. right. now apply Nat.eqb_neq. }
  unfold ssl_query, native_getSSLContext, bind, log, modify, ret.
  destruct (ssl sock) as [c | ];
    destruct (socket_handle sock) as [h | ], (headers r !! "sec-websocket-key") as [k | ];
    try rewrite Hskip; cbn; try rewrite <- app_assoc; try rewrite app_nil_r; reflexivity.
Qed.

Lemma invalid_handshake_is_dropped_witness :
  let w := world_of [] in
  let r := request_for "/chat" "tooshort" in
  _isNative (tcp_socket 7) = false /\
  (exists k, headers r !! "sec-websocket-key" = Some k /\ String.length k <> 24%nat) /\
  handleUpgrade quiet 0 r (tcp_socket 7) VUndefined (Some EmitConnection) w =
  (Ret tt, with_trace [SockDestroy 7] w).
Proof.
  intros w r.
  assert (Hkey : exists k, headers r !! "sec-websocket-key" = Some k /\
                           String.length k <> 24%nat).
  { exists "tooshort". split; [reflexivity | discriminate]. }
  split; [reflexivity | ].
  split; [exact Hkey | ].
  exact (invalid_handshake_is_dropped quiet w 0%nat r (tcp_socket 7) VUndefined
           (Some EmitConnection) eq_refl (or_intror (or_intror Hkey))).
Defined.

(** C9, which the code breaks.  For a socket that comes from the engine, with
    the server group open and no global variable [secKey], [handleUpgrade]
    records the request and installs the callback, and then throws a
    ReferenceError while it evaluates the arguments of [native.upgrade]:
    the trace is unchanged, the engine is never called. *)
Theorem native_upgrade_is_never_reached react w this s g r sock head callback :
  _isNative sock = true ->
  servers w !! this = Some s ->
  serverGroup s = Some g ->
  globals w !! "secKey" = None ->
  handleUpgrade react this r sock head callback w =
  (Throw (ReferenceError "secKey is not defined"),
   with_servers (<[this := set_upgradeCallback (or_noop callback) s]> (servers w))
     (with_upgradeReq (Some r) w)).
Proof.
  intros Hnative Hs Hg Hglobal. unfold handleUpgrade. rewrite Hnative.
  unfold bind at 1. rewrite (get_server_at _ _ _ Hs), Hg.
  unfold bind at 1. cbn [modify].
  unfold bind at 1. rewrite (update_server_at (with_upgradeReq (Some r) w) this s _ Hs).
  unfold resolve_global, bind, gets. cbn. now rewrite Hglobal.
Qed.

Lemma native_upgrade_is_never_reached_witness :
  let w := snd (Server_constructor quiet
                  (Some (mkOptions None None None true None PmdUndefined None None None))
                  None (world_of [])) in
  let r := request_for "/chat" "dGhlIHNhbXBsZSBub25jZQ==" in
  _isNative (native_socket 8) = true /\
  (serverGroup <$> servers w !! 0%nat) = Some (Some 0%nat) /\
  globals w !! "secKey" = None /\
  fst (handleUpgrade quiet 0 r (native_socket 8) VUndefined (Some EmitConnection) w) =
  Throw (ReferenceError "secKey is not defined") /\
  trace (snd (handleUpgrade quiet 0 r (native_socket 8) VUndefined (Some EmitConnection) w)) =
  trace w.
Proof.
  intros w r.
  pose proof (native_upgrade_is_never_reached quiet w 0%nat
                (mkServer (Some 0%nat) (UpgradeFn Noop) None true true None None
                   (mkOptions None None None true None PmdUndefined None None None))
                0%nat r (native_socket 8) VUndefined (Some EmitConnection)
                eq_refl eq_refl eq_refl eq_refl) as H.
  split; [reflexivity | ].
  split; [reflexivity | ].
  split; [reflexivity | ].
  rewrite H. split; reflexivity.
Defined.

(** ** Rejection by verifyClient *)

Lemma sync_rejection_answers_400 react w this s r sock head accept :
  servers w !! this = Some s ->
  path_set (path (captured s)) = false ->
  verifyClient (captured s) = Some (VerifySync accept) ->
  truthy (accept (mkInfo (headers r !! "origin") (authorized r || encrypted r) r)) = false ->
  upgradeListener react this r sock head w =
  (Ret tt,
   with_trace (trace w ++ [SockOn (sock_id sock) "error" (SLError this);
                           SockOn (sock_id sock) "_tlsError" (SLTlsError this);
                           SockEnd (sock_id sock)
                             (status_line "400" "Client verification failed")]) w).
Proof.
  intros Hs Hpath Hverify Hreject. unfold upgradeListener, bind, log, modify.
  erewrite get_server_at by exact Hs. rewrite Hpath, Hverify, Hreject. cbn.
  unfold abortConnection, log, modify. cbn [trace with_trace].
  rewrite <- !app_assoc. reflexivity.
Qed.

(** C6, which the code breaks.  With a two-argument [verifyClient] and a
    request that passes the path filter, the upgrade listener asks the
    predicate and does nothing else; when the predicate then calls back
    with a falsy [result], the socket is ended with a status line made of
    [code] and [name] as they are, and nothing else happens: no connection
    is announced, and nothing stands in for a [code] or [name] that is
    missing. *)
Theorem async_rejection_has_no_default react w this s r sock head id result code name :
  servers w !! this = Some s ->
  path_set (path (captured s)) = false \/ path (captured s) = Some (url_path (url r)) ->
  verifyClient (captured s) = Some (VerifyAsync id) ->
  truthy result = false ->
  let i := mkInfo (headers r !! "origin") (authorized r || encrypted r) r in
  let asked := [SockOn (sock_id sock) "error" (SLError this);
                SockOn (sock_id sock) "_tlsError" (SLTlsError this);
                VerifyAsked id i this sock] in
  let w1 := with_trace (trace w ++ asked) w in
  upgradeListener react this r sock head w = (Ret tt, w1) /\
  verified react this r sock head result code name w1 =
  (Ret tt,
   with_trace (trace w ++ asked ++
               [SockEnd (sock_id sock) (status_line (to_string code) (to_string name))]) w).
Proof.
  intros Hs Hpath Hverify Hresult i asked w1. split.
  - unfold upgradeListener, bind, log, modify.
    erewrite get_server_at by exact Hs. rewrite Hverify.
    assert (Hpass : negb (path_set (path (captured s)))
                    || bool_decide (path (captured s) = Some (url_path (url r))) = true).
    { destruct Hpath as [-> | Hp]; [reflexivity | ].
      rewrite bool_decide_eq_true_2 by exact Hp. apply orb_true_r. }
    rewrite Hpass. cbn. subst w1 asked. now rewrite <- !app_assoc.
  - unfold verified. rewrite Hresult. unfold abortConnection, log, modify.
    subst w1. cbn [trace with_trace]. now rewrite <- app_assoc.
Qed.

Lemma async_rejection_has_no_default_witness :
  let o := mkOptions None None (Some 0%nat) false None PmdUndefined None None
             (Some (VerifyAsync 1)) in
  let w := snd (Server_constructor quiet (Some o) None
                  (with_httpServers [mkHttpServer [] true] (world_of []))) in
  let r := request_for "/chat" "dGhlIHNhbXBsZSBub25jZQ==" in
  let i := mkInfo None false r in
  let asked := [SockOn 7 "error" (SLError 0); SockOn 7 "_tlsError" (SLTlsError 0);
                VerifyAsked 1 i 0 (tcp_socket 7)] in
  (verifyClient <$> (captured <$> servers w !! 0%nat)) = Some (Some (VerifyAsync 1)) /\
  truthy (VBool false) = false /\
  upgradeListener quiet 0 r (tcp_socket 7) VUndefined w =
    (Ret tt, with_trace (trace w ++ asked) w) /\
  verified quiet 0 r (tcp_socket 7) VUndefined (VBool false) VUndefined VUndefined
    (with_trace (trace w ++ asked) w) =
    (Ret tt, with_trace (trace w ++ asked ++
                         [SockEnd 7 (status_line "undefined" "undefined")]) w) /\
  status_line "undefined" "undefined" <> status_line "400" "Client verification failed".
Proof.
  intros o w r i asked.
  assert (Hs : servers w !! 0%nat =
               Some (mkServer (Some 0%nat) (UpgradeFn Noop) (Some (LUpgrade 0)) true false
                       (Some 0%nat) (Some 0%nat) o))
    by (vm_compute; reflexivity).
  destruct (async_rejection_has_no_default quiet w 0%nat _ r (tcp_socket 7) VUndefined 1%nat
              (VBool false) VUndefined VUndefined Hs (or_introl eq_refl) eq_refl eq_refl)
    as (Hasked & Hrejected).
  split; [now rewrite Hs | ].
  split; [reflexivity | ].
  split; [exact Hasked | ].
  split; [exact Hrejected | discriminate].
Defined.

(** ** The path filter and the last-listener flag *)

Lemma bind_returns {A B} (m : M A) (k : A -> M B) w b w' :
  bind m k w = (Ret b, w') ->
  exists a w1, m w = (Ret a, w1) /\ k a w1 = (Ret b, w').
Proof.
  unfold bind. destruct (m w) as [[a | e] w1]; [ | discriminate].
  intros H. now exists a, w1.
Qed.

Lemma update_server_returns w a f w' :
  update_server a f w = (Ret tt, w') ->
  exists s, servers w !! a = Some s /\ w' = with_servers (<[a := f s]> (servers w)) w.
Proof.
  unfold update_server, bind, get_server.
  destruct (servers w !! a) as [s | ]; [ | discriminate].
  cbn. intros [= <-]. now exists s.
Qed.

Lemma update_http_returns w a f w' :
  update_http a f w = (Ret tt, w') ->
  exists hs, httpServers w !! a = Some hs /\
             w' = with_httpServers (<[a := f hs]> (httpServers w)) w.
Proof.
  unfold update_http, bind, get_http.
  destruct (httpServers w !! a) as [hs | ]; [ | discriminate].
  cbn. intros [= <-]. now exists hs.
Qed.

Lemma preserves_get_server P a : preserves P (get_server a).
Proof. intros w H. unfold get_server. now destruct (servers w !! a). Qed.

Lemma preserves_get_http P a : preserves P (get_http a).
Proof. intros w H. unfold get_http. now destruct (httpServers w !! a). Qed.

Lemma flag_cleared_update_server this a f :
  (forall s, _lastUpgradeListener s = false -> _lastUpgradeListener (f s) = false) ->
  preserves (flag_cleared this) (update_server a f).
Proof.
  intros Hf w (s0 & Hs0 & Hflag). unfold update_server, bind, get_server.
  destruct (servers w !! a) as [s | ] eqn:Ha; cbn; [ | now exists s0].
  destruct (decide (a = this)) as [-> | Hne].
  - rewrite Hs0 in Ha. injection Ha as <-. exists (f s0). split.
    + apply list_lookup_insert_eq. eapply lookup_lt_Some, Hs0.
    + now apply Hf.
  - exists s0. split; [ | exact Hflag]. cbn. now rewrite list_lookup_insert_ne.
Qed.

Lemma flag_cleared_update_http this a f : preserves (flag_cleared this) (update_http a f).
Proof.
  unfold update_http. apply preserves_bind; [apply preserves_get_http | intros hs].
  apply preserves_modify. intros w H. exact H.
Qed.

Lemma flag_cleared_log this e : preserves (flag_cleared this) (log e).
Proof. apply preserves_modify. intros w H. exact H. Qed.

Lemma flag_cleared_notify this ev l :
  preserves (flag_cleared this) (notify_newListener ev l).
Proof.
  destruct l; cbn [notify_newListener]; try apply preserves_ret.
  - apply flag_cleared_log.
  - apply preserves_when. apply flag_cleared_update_server. reflexivity.
Qed.

(** Once the server's own ['newListener'] listener is among those notified
    of an ['upgrade'] registration, the flag is down. *)
Lemma notified_of_upgrade this l : forall w w',
  for_each l (notify_newListener "upgrade") w = (Ret tt, w') ->
  In (LNewListener this) l ->
  flag_cleared this w'.
Proof.
  induction l as [ | x l IH]; intros w w' Hrun Hin; [contradiction | ].
  cbn [for_each] in Hrun. apply bind_returns in Hrun as ([] & w1 & Hx & Hrest).
  destruct Hin as [-> | Hin].
  - assert (H1 : flag_cleared this w1).
    { cbn in Hx. apply update_server_returns in Hx as (s & Hs & ->).
      exists (set_lastUpgradeListener false s). split; [ | reflexivity].
      cbn. apply list_lookup_insert_eq. eapply lookup_lt_Some, Hs. }
    replace w' with (snd (for_each l (notify_newListener "upgrade") w1))
      by now rewrite Hrest.
    apply preserves_for_each; [ | exact H1].
    intros y _. apply flag_cleared_notify.
  - eapply IH; eassumption.
Qed.

Lemma emitter_on_returns t ev l w w' :
  emitter_on t ev l w = (Ret tt, w') ->
  exists hs w1 hs1,
    httpServers w !! t = Some hs /\
    for_each (newListener_listeners hs) (notify_newListener ev) w = (Ret tt, w1) /\
    httpServers w1 !! t = Some hs1 /\
    w' = with_httpServers
           (<[t := mkHttpServer (listeners hs1 ++ [(ev, l)]) (listening hs1)]>
              (httpServers w1)) w1.
Proof.
  unfold emitter_on. intros H.
  apply bind_returns in H as (hs & w0 & Hget & H).
  unfold get_http in Hget. destruct (httpServers w !! t) as [hs0 | ] eqn:Ht; [ | discriminate].
  injection Hget as <- <-.
  apply bind_returns in H as ([] & w1 & Hfor & H).
  apply update_http_returns in H as (hs1 & Hs1 & ->).
  now exists hs0, w1, hs1.
Qed.

Lemma registering_upgrade_clears_flag this t w w' hs :
  emitter_on t "upgrade" (LUpgrade this) w = (Ret tt, w') ->
  httpServers w !! t = Some hs ->
  In ("newListener", LNewListener this) (listeners hs) ->
  flag_cleared this w'.
Proof.
  intros Hon Hhs Hin.
  apply emitter_on_returns in Hon as (hs0 & w1 & hs1 & Hhs0 & Hfor & _ & ->).
  rewrite Hhs in Hhs0. injection Hhs0 as <-.
  apply notified_of_upgrade with (this := this) in Hfor; [exact Hfor | ].
  unfold newListener_listeners. apply in_map_iff. exists ("newListener", LNewListener this).
  split; [reflexivity | ]. apply filter_In. now split.
Qed.

(** Whatever is registered on the transport and whatever the engine does,
    the constructor leaves [_lastUpgradeListener] false when it installs an
    upgrade listener: it registers its ['newListener'] listener first, so
    the registration of its own upgrade listener is the first one that
    listener is told of. *)
Lemma constructor_clears_flag react o callback w this w1 :
  Server_constructor react (Some o) callback w = (Ret this, w1) ->
  noServer o = false ->
  flag_cleared this w1.
Proof.
  intros Hrun Hno. unfold Server_constructor in Hrun. rewrite Hno in Hrun.
  destruct (bool_decide (port o = None) && bool_decide (server o = None) && negb false);
    [discriminate | ].
  apply bind_returns in Hrun as (g & wa & _ & Hrun).
  apply bind_returns in Hrun as (this' & wb & Hnew & Hrun).
  apply bind_returns in Hrun as ([] & wc & Hwhen & Hrun).
  apply bind_returns in Hrun as ([] & wd & Hlisten & Hret).
  injection Hret as <- <-.
  assert (Hc : flag_cleared this' wc).
  { cbn [negb when] in Hwhen.
    apply bind_returns in Hwhen as (t & w2 & _ & Hwhen).
    apply bind_returns in Hwhen as ([] & w3 & _ & Hwhen).
    apply bind_returns in Hwhen as ([] & w4 & _ & Hwhen).
    apply bind_returns in Hwhen as ([] & w5 & _ & Hwhen).
    apply bind_returns in Hwhen as ([] & w6 & Hhook & Hwhen).
    apply bind_returns in Hwhen as ([] & w7 & Hset & Hwhen).
    apply emitter_on_returns in Hhook as (hs & w6' & hs6 & _ & _ & Hhs6 & ->).
    apply update_server_returns in Hset as (s7 & _ & ->).
    eapply registering_upgrade_clears_flag; [exact Hwhen | | ].
    - cbn. apply list_lookup_insert_eq. eapply lookup_lt_Some, Hhs6.
    - cbn. apply in_or_app. right. now left. }
  replace wd with (snd (match port o with
       | Some p =>
           bind (get_server this') (fun s =>
           match httpServer s with
           | Some t => http_listen t p (if path_set (host o) then host o else None)
           | None => throw (TypeError "cannot read property listen of undefined")
           end)
       | None => ret tt
       end wc)) by now rewrite Hlisten.
  revert Hc. generalize wc. change (preserves (flag_cleared this')
    (match port o with
       | Some p =>
           bind (get_server this') (fun s =>
           match httpServer s with
           | Some t => http_listen t p (if path_set (host o) then host o else None)
           | None => throw (TypeError "cannot read property listen of undefined")
           end)
       | None => ret tt
       end)).
  unfold http_listen.
  repeat first [ apply preserves_get_server | apply flag_cleared_update_http
               | apply flag_cleared_log | preserve_step ].
Qed.

(** C5, which the code breaks.  Right after construction, when this server's
    upgrade listener is the one registered last, a request whose path does
    not match the configured path is only given the two error listeners:
    no response is written. *)
Theorem mismatched_path_is_never_answered react o callback w this w1 s r sock head :
  Server_constructor react (Some o) callback w = (Ret this, w1) ->
  noServer o = false ->
  servers w1 !! this = Some s ->
  path_set (path (captured s)) = true ->
  path (captured s) <> Some (url_path (url r)) ->
  upgradeListener react this r sock head w1 =
  (Ret tt, with_trace (trace w1 ++ [SockOn (sock_id sock) "error" (SLError this);
                                    SockOn (sock_id sock) "_tlsError" (SLTlsError this)]) w1).
Proof.
  intros Hrun Hno Hs Hpath Hne.
  destruct (constructor_clears_flag react o callback w this w1 Hrun Hno) as (s' & Hs' & Hflag).
  rewrite Hs in Hs'. injection Hs' as <-.
  unfold upgradeListener, bind, log, modify.
  erewrite get_server_at by exact Hs. rewrite Hpath, Hflag.
  rewrite bool_decide_eq_false_2 by exact Hne. cbn.
  now rewrite <- !app_assoc.
Qed.

Lemma mismatched_path_is_never_answered_witness :
  let o := mkOptions None None (Some 0%nat) false (Some "chat") PmdUndefined None None None in
  let w := with_httpServers [mkHttpServer [("request", LForeign 1)] true] (world_of []) in
  let w1 := snd (Server_constructor quiet (Some o) None w) in
  let r := request_for "/other?x=1" "dGhlIHNhbXBsZSBub25jZQ==" in
  Server_constructor quiet (Some o) None w = (Ret 0%nat, w1) /\
  noServer o = false /\
  (listeners <$> httpServers w1 !! 0%nat) =
    Some [("request", LForeign 1); ("error", LHttpError 0);
          ("newListener", LNewListener 0); ("upgrade", LUpgrade 0)] /\
  (path <$> (captured <$> servers w1 !! 0%nat)) = Some (Some "/chat") /\
  url_path (url r) = "/other" /\
  upgradeListener quiet 0 r (tcp_socket 7) VUndefined w1 =
  (Ret tt, with_trace (trace w1 ++ [SockOn 7 "error" (SLError 0);
                                    SockOn 7 "_tlsError" (SLTlsError 0)]) w1).
Proof.
  intros o w w1 r.
  assert (Hrun : Server_constructor quiet (Some o) None w = (Ret 0%nat, w1))
    by (vm_compute; reflexivity).
  assert (Hs : servers w1 !! 0%nat =
               Some (mkServer (Some 0%nat) (UpgradeFn Noop) (Some (LUpgrade 0)) true false
                       (Some 0%nat) (Some 0%nat) (set_path (Some "/chat") o)))
    by (vm_compute; reflexivity).
  split; [exact Hrun | ].
  split; [reflexivity | ].
  split; [vm_compute; reflexivity | ].
  split; [vm_compute; reflexivity | ].
  split; [vm_compute; reflexivity | ].
  refine (mismatched_path_is_never_answered quiet o None w 0%nat w1 _ r (tcp_socket 7)
            VUndefined Hrun eq_refl Hs eq_refl _).
  discriminate.
Defined.

(** ** Removing a listener, and what the engine's callbacks leave alone *)

Lemma not_occurring x l : occurrences x l = 0%nat <-> x ∉ l.
Proof.
  induction l as [ | y l IH]; cbn [occurrences].
  - split; [intros _; apply not_elem_of_nil | reflexivity].
  - rewrite not_elem_of_cons. case_bool_decide as Hy.
    + split; [discriminate | intros [Hne _]; now subst].
    + cbn. rewrite IH. split; [ | tauto]. intros Hl. split; [ | exact Hl]. congruence.
Qed.

Lemma remove_last_absent x l : x ∉ l -> remove_last x l = l.
Proof.
  induction l as [ | y l IH]; intros Hx; [reflexivity | ].
  apply not_elem_of_cons in Hx as (Hne & Hl). cbn [remove_last].
  rewrite bool_decide_eq_false_2 by exact Hl.
  rewrite bool_decide_eq_false_2 by congruence. reflexivity.
Qed.

Lemma remove_last_of_one x l : (occurrences x l <= 1)%nat -> x ∉ remove_last x l.
Proof.
  induction l as [ | y l IH]; intros Hocc; cbn [remove_last]; [apply not_elem_of_nil | ].
  cbn [occurrences] in Hocc.
  destruct (decide (x ∈ l)) as [Hin | Hout].
  - rewrite bool_decide_eq_true_2 by exact Hin.
    assert (Hpos : occurrences x l <> 0%nat)
      by (rewrite not_occurring; intros Hout; exact (Hout Hin)).
    destruct (decide (y = x)) as [Hy | Hy].
    + rewrite bool_decide_eq_true_2 in Hocc by exact Hy. lia.
    + rewrite bool_decide_eq_false_2 in Hocc by exact Hy.
      apply not_elem_of_cons. split; [congruence | apply IH; lia].
  - rewrite bool_decide_eq_false_2 by exact Hout.
    destruct (decide (y = x)) as [Hy | Hy].
    + rewrite bool_decide_eq_true_2 by exact Hy. exact Hout.
    + rewrite bool_decide_eq_false_2 by exact Hy.
      apply not_elem_of_cons. split; [congruence | exact Hout].
Qed.

(** The engine's callbacks touch neither the servers nor the transports,
    and call nothing in the engine. *)
Section DispatchFrame.

Context (P : world -> Prop).
Hypothesis P_websockets : forall w l, P w -> P (with_websockets l w).
Hypothesis P_log :
  forall w e, natives [e] = [] -> P w -> P (with_trace (trace w ++ [e]) w).
Hypothesis P_ticks : forall w l, P w -> P (with_ticks l w).
Hypothesis P_userData : forall w l, P w -> P (with_userData l w).
Hypothesis P_upgradeReq : forall w l, P w -> P (with_upgradeReq l w).

Lemma frame_get_ws a : preserves P (get_ws a).
Proof. intros w H. unfold get_ws. now destruct (websockets w !! a). Qed.

Lemma frame_call_slot slot args : preserves P (call_slot slot args).
Proof.
  destruct slot; [now apply frame_call_fn | apply preserves_throw].
Qed.

Lemma frame_dispatch ev : preserves P (dispatch ev).
Proof.
  destruct ev; cbn [dispatch];
    unfold call_upgrade_callback, nextTick_value, nextTick, WebSocket.constructor, log.
  all: repeat first
         [ apply frame_get_ws | apply preserves_get_server
         | apply frame_call_slot | apply frame_call_fn; assumption
         | apply frame_update_ws; assumption
         | apply preserves_modify; intros ? ?;
           first [ now apply P_userData | now apply P_upgradeReq | now apply P_ticks
                 | now apply P_log ]
         | preserve_step ].
  intros w H. cbn. now apply P_websockets.
Qed.

Lemma frame_reactions l : preserves P (for_each l dispatch).
Proof. apply preserves_for_each. intros ev _. apply frame_dispatch. Qed.

End DispatchFrame.

Lemma native_frame react c w :
  let w' := snd (native react c w) in
  servers w' = servers w /\
  httpServers w' = httpServers w /\
  natives (trace w') = natives (trace w) ++ [c].
Proof.
  unfold native, bind, log, modify. cbn [fst snd].
  apply (frame_reactions
           (fun w' => servers w' = servers w /\ httpServers w' = httpServers w /\
                      natives (trace w') = natives (trace w) ++ [c])).
  - intros w0 l H. exact H.
  - intros w0 e He (H1 & H2 & H3). repeat split; [exact H1 | exact H2 | ].
    cbn. unfold natives in *. rewrite flat_map_app, He, app_nil_r. exact H3.
  - intros w0 l H. exact H.
  - intros w0 l H. exact H.
  - intros w0 l H. exact H.
  - repeat split. cbn. unfold natives. now rewrite flat_map_app.
Qed.

(** ** What the constructor leaves on the transport *)

Section ServerInvariant.

Context (this : nat) (Q : Server -> Prop).

Lemma server_has_update_server a f :
  (forall s, Q s -> Q (f s)) -> preserves (server_has this Q) (update_server a f).
Proof.
  intros Hf w (s0 & Hs0 & HQ). unfold update_server, bind, get_server.
  destruct (servers w !! a) as [s | ] eqn:Ha; cbn; [ | now exists s0].
  destruct (decide (a = this)) as [-> | Hne].
  - rewrite Hs0 in Ha. injection Ha as <-. exists (f s0). split.
    + apply list_lookup_insert_eq. eapply lookup_lt_Some, Hs0.
    + now apply Hf.
  - exists s0. split; [ | exact HQ]. cbn. now rewrite list_lookup_insert_ne.
Qed.

Hypothesis Q_flag : forall s b, Q s -> Q (set_lastUpgradeListener b s).

Lemma server_has_notify ev l : preserves (server_has this Q) (notify_newListener ev l).
Proof.
  destruct l; cbn [notify_newListener]; try apply preserves_ret.
  - apply preserves_modify. intros w H. exact H.
  - apply preserves_when, server_has_update_server. intros s. apply Q_flag.
Qed.

Lemma server_has_update_http a f : preserves (server_has this Q) (update_http a f).
Proof.
  unfold update_http. apply preserves_bind; [apply preserves_get_http | intros hs].
  apply preserves_modify. intros w H. exact H.
Qed.

Lemma server_has_emitter_on t ev l : preserves (server_has this Q) (emitter_on t ev l).
Proof.
  unfold emitter_on. apply preserves_bind; [apply preserves_get_http | intros hs].
  apply preserves_bind; [ | intros _; apply server_has_update_http].
  apply preserves_for_each. intros x _. apply server_has_notify.
Qed.

End ServerInvariant.

Lemma notify_keeps_transports ev l w :
  httpServers (snd (notify_newListener ev l w)) = httpServers w.
Proof.
  destruct l; cbn [notify_newListener]; try reflexivity.
  destruct (String.eqb ev "upgrade"); cbn [when]; [ | reflexivity].
  unfold update_server, bind, get_server. now destruct (servers w !! srv).
Qed.

Lemma notifications_keep_transports ev l : forall w,
  httpServers (snd (for_each l (notify_newListener ev) w)) = httpServers w.
Proof.
  induction l as [ | x l IH]; intros w; [reflexivity | ].
  cbn [for_each]. unfold bind.
  pose proof (notify_keeps_transports ev x w) as Hx.
  destruct (notify_newListener ev x w) as [[[] | e] w1]; cbn [snd] in *.
  - now rewrite IH.
  - exact Hx.
Qed.

Lemma occurrences_app x l1 l2 :
  occurrences x (l1 ++ l2) = (occurrences x l1 + occurrences x l2)%nat.
Proof.
  induction l1 as [ | y l1 IH]; [reflexivity | ].
  cbn [app occurrences]. rewrite IH. lia.
Qed.

(** Registering [(ev, l)] on [t] adds one occurrence of it there and none
    of any other registration. *)
Lemma emitter_on_registers t ev l w w' x n :
  emitter_on t ev l w = (Ret tt, w') ->
  registered t x n w ->
  registered t x (n + if bool_decide ((ev, l) = x) then 1 else 0) w'.
Proof.
  intros Hon (hs & Hhs & Hn).
  apply emitter_on_returns in Hon as (hs0 & w1 & hs1 & _ & Hfor & Hhs1 & ->).
  pose proof (notifications_keep_transports ev (newListener_listeners hs0) w) as Hkeep.
  rewrite Hfor in Hkeep. cbn [snd] in Hkeep.
  rewrite Hkeep, Hhs in Hhs1. injection Hhs1 as <-.
  eexists. split.
  - cbn. apply list_lookup_insert_eq. rewrite Hkeep. eapply lookup_lt_Some, Hhs.
  - cbn [listeners]. rewrite occurrences_app, Hn. cbn [occurrences]. lia.
Qed.

Lemma registered_update_server t x n a f :
  preserves (registered t x n) (update_server a f).
Proof.
  unfold update_server. apply preserves_bind; [apply preserves_get_server | intros s].
  apply preserves_modify. intros w H. exact H.
Qed.

Lemma registered_http_listen t x n t' p h : preserves (registered t x n) (http_listen t' p h).
Proof.
  unfold http_listen. apply preserves_bind; [ | intros _; apply preserves_modify; now intros w H].
  intros w (hs & Hhs & Hn). unfold update_http, bind, get_http.
  destruct (httpServers w !! t') as [hs' | ] eqn:Ht'; cbn; [ | now exists hs].
  destruct (decide (t' = t)) as [-> | Hne].
  - rewrite Hhs in Ht'. injection Ht' as <-. eexists. split.
    + apply list_lookup_insert_eq. eapply lookup_lt_Some, Hhs.
    + exact Hn.
  - exists hs. split; [ | exact Hn]. cbn. now rewrite list_lookup_insert_ne.
Qed.

(** A constructor that returns leaves the new server's upgrade listener
    registered at most once, provided a transport handed in by the caller
    does not already hold a listener of the server to be. *)
Lemma constructor_registers_once react o callback w this w1 :
  Server_constructor react (Some o) callback w = (Ret this, w1) ->
  (forall t hs, server o = Some t -> httpServers w !! t = Some hs ->
                ("upgrade", LUpgrade (length (servers w))) ∉ listeners hs) ->
  registered_once this w1.
Proof.
  intros Hrun Hfresh. unfold Server_constructor in Hrun.
  destruct (bool_decide (port o = None) && bool_decide (server o = None)
            && negb (noServer o)); [discriminate | ].
  apply bind_returns in Hrun as (g & wa & Hcreate & Hrun).
  apply bind_returns in Hrun as (this' & wb & Hnew & Hrun).
  apply bind_returns in Hrun as ([] & wc & Hwhen & Hrun).
  apply bind_returns in Hrun as ([] & wd & Hlisten & Hret).
  injection Hret as <- <-.
  assert (Ha : servers wa = servers w /\ httpServers wa = httpServers w).
  { unfold native_group_create in Hcreate.
    apply bind_returns in Hcreate as (g' & w0 & Hid & Hcreate).
    injection Hid as <- <-.
    apply bind_returns in Hcreate as ([] & wn & Hnative & Hret).
    injection Hret as <- <-.
    destruct (native_frame react (NGroupCreate (nativeOptions_of (perMessageDeflate_ o))
                                    (default DEFAULT_PAYLOAD_LIMIT (maxPayload o)) (next w))
                (with_next (S (next w)) w)) as (H1 & H2 & _).
    rewrite Hnative in H1, H2. now split. }
  destruct Ha as (Hservers & Hhttp).
  injection Hnew as <- <-. rewrite Hservers in *.
  set (this := length (servers w)) in *.
  set (s0 := mkServer (Some g) (UpgradeFn Noop) None (default true (noDelay o)) true
               (server o) None o) in *.
  set (wb := with_servers (servers w ++ [s0]) wa) in *.
  assert (Hwb : servers wb !! this = Some s0).
  { subst wb this. cbn. rewrite lookup_app_r by lia. now rewrite Nat.sub_diag. }
  set (port_part := match port o with
                    | Some p => _
                    | None => ret tt
                    end) in Hlisten.
  assert (Hport : forall P,
             (forall t p h, preserves P (http_listen t p h)) -> preserves P port_part).
  { intros P HP. subst port_part. destruct (port o); [ | apply preserves_ret].
    apply preserves_bind; [apply preserves_get_server | intros s].
    destruct (httpServer s); [apply HP | apply preserves_throw]. }
  replace wd with (snd (port_part wc)) by now rewrite Hlisten.
  destruct (noServer o) eqn:Hno; cbn [negb when] in Hwhen.
  - injection Hwhen as <-.
    assert (Hnone : server_has this (fun s => _upgradeListener s = None) (snd (port_part wb))).
    { apply Hport; [ | now exists s0].
      intros t p h. unfold http_listen.
      apply preserves_bind; [apply server_has_update_http | intros _].
      apply preserves_modify. now intros w0 H. }
    intros s l t hs Hs Hl. destruct Hnone as (s' & Hs' & Hl').
    rewrite Hs in Hs'. injection Hs' as <-. congruence.
  - apply bind_returns in Hwhen as (t & w2 & Ht & Hwhen).
    apply bind_returns in Hwhen as ([] & w3 & Hset1 & Hwhen).
    apply bind_returns in Hwhen as ([] & w4 & Hset2 & Hwhen).
    apply bind_returns in Hwhen as ([] & w5 & Herror & Hwhen).
    apply bind_returns in Hwhen as ([] & w6 & Hhook & Hwhen).
    apply bind_returns in Hwhen as ([] & w7 & Hset3 & Hupgrade).
    set (x := ("upgrade", LUpgrade this)) in *.
    assert (H2 : servers w2 !! this = Some s0 /\ registered t x 0 w2).
    { destruct (server o) as [t0 | ] eqn:Hserver.
      - injection Ht as <- <-. split; [exact Hwb | ].
        subst wb. cbn. unfold registered. cbn. rewrite Hhttp.
        destruct (httpServers w !! t0) as [hs | ] eqn:Hhs.
        + exists hs. split; [reflexivity | ]. apply not_occurring. now apply (Hfresh t0).
        + apply emitter_on_returns in Herror as (hs & wx & hsx & Hhs' & _).
          apply update_server_returns in Hset1 as (? & _ & ->).
          apply update_server_returns in Hset2 as (? & _ & ->).
          cbn in Hhs'. rewrite Hhttp in Hhs'. congruence.
      - injection Ht as <- <-. split; [exact Hwb | ].
        eexists. split.
        + cbn. rewrite lookup_app_r by lia. now rewrite Nat.sub_diag.
        + reflexivity. }
    destruct H2 as (Hs2 & Hr2).
    pose (Q := fun s : Server => httpServer s = Some t).
    assert (H3 : server_has this Q w3 /\ registered t x 0 w3).
    { split.
      - apply update_server_returns in Hset1 as (s & Hs & ->).
        exists (set_httpServer (Some t) s). split; [ | reflexivity].
        cbn. apply list_lookup_insert_eq. eapply lookup_lt_Some, Hs.
      - replace w3 with (snd (update_server this (set_httpServer (Some t)) w2))
          by now rewrite Hset1.
        now apply registered_update_server. }
    destruct H3 as (Hq3 & Hr3).
    assert (H4 : server_has this Q w4 /\ registered t x 0 w4).
    { replace w4 with (snd (update_server this
                              (set_captured (set_path (normalise_path (path o)) o)) w3))
        by now rewrite Hset2.
      split; [apply server_has_update_server; [now intros s | exact Hq3]
             | now apply registered_update_server]. }
    destruct H4 as (Hq4 & Hr4).
    assert (H5 : server_has this Q w5 /\ registered t x 0 w5).
    { split.
      - replace w5 with (snd (emitter_on t "error" (LHttpError this) w4)) by now rewrite Herror.
        apply server_has_emitter_on; [now intros s b | exact Hq4].
      - apply (emitter_on_registers _ _ _ _ _ x 0%nat Herror) in Hr4. exact Hr4. }
    destruct H5 as (Hq5 & Hr5).
    assert (H6 : server_has this Q w6 /\ registered t x 0 w6).
    { split.
      - replace w6 with (snd (emitter_on t "newListener" (LNewListener this) w5))
          by now rewrite Hhook.
        apply server_has_emitter_on; [now intros s b | exact Hq5].
      - apply (emitter_on_registers _ _ _ _ _ x 0%nat Hhook) in Hr5. exact Hr5. }
    destruct H6 as (Hq6 & Hr6).
    pose (Q' := fun s : Server =>
                  _upgradeListener s = Some (LUpgrade this) /\ httpServer s = Some t).
    assert (H7 : server_has this Q' w7 /\ registered t x 0 w7).
    { split.
      - destruct Hq6 as (s6 & Hs6 & Hq).
        apply update_server_returns in Hset3 as (s & Hs & ->).
        rewrite Hs6 in Hs. injection Hs as <-.
        exists (set_upgradeListener (Some (LUpgrade this)) s6). split; [ | now split].
        cbn. apply list_lookup_insert_eq. eapply lookup_lt_Some, Hs6.
      - replace w7 with (snd (update_server this (set_upgradeListener (Some (LUpgrade this)))
                                w6)) by now rewrite Hset3.
        now apply registered_update_server. }
    destruct H7 as (Hq7 & Hr7).
    assert (Hc : server_has this Q' wc /\ registered t x 1 wc).
    { split.
      - replace wc with (snd (emitter_on t "upgrade" (LUpgrade this) w7))
          by now rewrite Hupgrade.
        apply server_has_emitter_on; [now intros s b | exact Hq7].
      - apply (emitter_on_registers _ _ _ _ _ x 0%nat Hupgrade) in Hr7.
        subst x. now rewrite bool_decide_eq_true_2 in Hr7. }
    destruct Hc as (Hqc & Hrc).
    assert (Hqd : server_has this Q' (snd (port_part wc))).
    { apply Hport; [ | exact Hqc].
      intros t' p h. unfold http_listen.
      apply preserves_bind; [apply server_has_update_http | intros _].
      apply preserves_modify. now intros w0 H. }
    assert (Hrd : registered t x 1 (snd (port_part wc))).
    { apply Hport; [ | exact Hrc]. intros t' p h. apply registered_http_listen. }
    intros s l t' hs Hs Hl Ht' Hhs.
    destruct Hqd as (s' & Hs' & Hl' & Ht''), Hrd as (hs' & Hhs' & Hn).
    rewrite Hs in Hs'. injection Hs' as <-.
    rewrite Hl in Hl'. injection Hl' as ->.
    rewrite Ht' in Ht''. injection Ht'' as ->.
    rewrite Hhs in Hhs'. injection Hhs' as <-.
    subst x. rewrite Hn. lia.
Qed.

(** ** The second close *)

Lemma http_unchanged (w : world) t hs :
  httpServers w !! t = Some hs ->
  with_httpServers (<[t := hs]> (httpServers w)) w = w.
Proof.
  intros H. unfold with_httpServers. rewrite (list_insert_id _ _ _ H). now destruct w.
Qed.

(** A second [close] finds nothing left to do. *)
Lemma close_when_released react this cb w :
  released this w ->
  Server_close react this cb w = (Ret tt, with_close_timer cb w).
Proof.
  intros (s & Hs & Hg & Hhttp). unfold Server_close.
  unfold bind at 1. rewrite (get_server_at _ _ _ Hs).
  assert (Hfirst :
    match _upgradeListener s, httpServer s with
    | Some l, Some t =>
        bind (emitter_removeListener t "upgrade" l)
          (fun _ => match _passedHttpServer s with
                    | None => http_close t
                    | Some _ => ret tt
                    end)
    | _, _ => ret tt
    end w = (Ret tt, w)).
  { destruct (_upgradeListener s) as [l | ] eqn:Hl; [ | reflexivity].
    destruct (httpServer s) as [t | ] eqn:Ht; [ | reflexivity].
    destruct (Hhttp l t eq_refl eq_refl) as (hs & Hhs & Hout & Hquiet).
    unfold bind, emitter_removeListener.
    rewrite (update_http_at _ _ _ _ Hhs), (remove_last_absent _ _ Hout).
    replace (mkHttpServer (listeners hs) (listening hs)) with hs by now destruct hs.
    rewrite (http_unchanged _ _ _ Hhs).
    destruct (_passedHttpServer s) eqn:Hp; [reflexivity | ].
    unfold http_close. rewrite (update_http_at _ _ _ _ Hhs), <- (Hquiet eq_refl).
    replace (mkHttpServer (listeners hs) (listening hs)) with hs by now destruct hs.
    now rewrite (http_unchanged _ _ _ Hhs). }
  unfold bind at 1. rewrite Hfirst.
  unfold bind at 1. rewrite (get_server_at _ _ _ Hs), Hg.
  unfold bind, ret. cbn. now destruct cb.
Qed.

(** A first [close] that returns leaves nothing to release, and has called
    the engine once if the group was there and not at all otherwise. *)
Lemma close_releases react this cb w w1 s :
  Server_close react this cb w = (Ret tt, w1) ->
  servers w !! this = Some s ->
  (forall l t hs, _upgradeListener s = Some l -> httpServer s = Some t ->
                  httpServers w !! t = Some hs ->
                  (occurrences ("upgrade", l) (listeners hs) <= 1)%nat) ->
  released this w1 /\
  natives (trace w1) =
  natives (trace w) ++ match serverGroup s with
                       | Some g => [NGroupClose g]
                       | None => []
                       end.
Proof.
  intros Hrun Hs Honce. unfold Server_close in Hrun.
  apply bind_returns in Hrun as (s0 & w0 & Hget & Hrun).
  rewrite (get_server_at _ _ _ Hs) in Hget. injection Hget as <- <-.
  apply bind_returns in Hrun as ([] & wa & Hfirst & Hrun).
  assert (Ha : servers wa = servers w /\ trace wa = trace w /\
               forall l t, _upgradeListener s = Some l -> httpServer s = Some t ->
                 exists hs, httpServers wa !! t = Some hs /\
                            (("upgrade", l) ∉ listeners hs) /\
                            (_passedHttpServer s = None -> listening hs = false)).
  { destruct (_upgradeListener s) as [l | ] eqn:Hl;
      [ | injection Hfirst as <-; repeat split; discriminate].
    destruct (httpServer s) as [t | ] eqn:Ht;
      [ | injection Hfirst as <-; repeat split; discriminate].
    apply bind_returns in Hfirst as ([] & wr & Hremove & Hclose).
    apply update_http_returns in Hremove as (hs & Hhs & ->).
    assert (Hgone : ("upgrade", l) ∉ remove_last ("upgrade", l) (listeners hs))
      by (apply remove_last_of_one; now apply (Honce l t hs)).
    destruct (_passedHttpServer s) eqn:Hp.
    - injection Hclose as <-. repeat split.
      intros l' t' [= <-] [= <-].
      exists (mkHttpServer (remove_last ("upgrade", l) (listeners hs)) (listening hs)).
      split; [ | split; [exact Hgone | discriminate]].
      cbn. apply list_lookup_insert_eq. eapply lookup_lt_Some, Hhs.
    - apply update_http_returns in Hclose as (hs' & Hhs' & ->). repeat split.
      intros l' t' [= <-] [= <-].
      cbn in Hhs'. rewrite list_lookup_insert_eq in Hhs' by (eapply lookup_lt_Some, Hhs).
      injection Hhs' as <-.
      exists (mkHttpServer (remove_last ("upgrade", l) (listeners hs)) false).
      split; [ | split; [exact Hgone | reflexivity]].
      cbn. apply list_lookup_insert_eq. rewrite length_insert. eapply lookup_lt_Some, Hhs. }
  destruct Ha as (Hservers & Htrace & Hhttp).
  apply bind_returns in Hrun as (s1 & w0 & Hget & Hrun).
  assert (Hsa : servers wa !! this = Some s) by now rewrite Hservers.
  rewrite (get_server_at _ _ _ Hsa) in Hget. injection Hget as <- <-.
  apply bind_returns in Hrun as ([] & wb & Hgroup & Htimer).
  assert (Hb : released this wb /\
               natives (trace wb) =
               natives (trace w) ++ match serverGroup s with
                                    | Some g => [NGroupClose g]
                                    | None => []
                                    end).
  { destruct (serverGroup s) as [g | ] eqn:Hg.
    - apply bind_returns in Hgroup as ([] & wn & Hnative & Hset).
      destruct (native_frame react (NGroupClose g) wa) as (Hn1 & Hn2 & Hn3).
      rewrite Hnative in Hn1, Hn2, Hn3. cbn [snd] in Hn1, Hn2, Hn3.
      apply update_server_returns in Hset as (sn & Hsn & ->).
      rewrite Hn1, Hsa in Hsn. injection Hsn as <-.
      split; [ | cbn [trace with_servers]; now rewrite Hn3, Htrace].
      exists (set_serverGroup None s). split; [ | split; [reflexivity | ]].
      + cbn. apply list_lookup_insert_eq. rewrite Hn1. eapply lookup_lt_Some, Hsa.
      + cbn. rewrite Hn2. exact Hhttp.
    - injection Hgroup as <-. split; [ | now rewrite Htrace, app_nil_r].
      exists s. split; [exact Hsa | split; [exact Hg | exact Hhttp]]. }
  destruct Hb as (Hreleased & Hnatives).
  destruct cb; injection Htimer as <-; split; assumption.
Qed.

Lemma released_with_close_timer this cb w :
  released this w -> released this (with_close_timer cb w).
Proof. intros H. now destruct cb. Qed.

(** C7.  Let a first [close] return, for a server whose upgrade listener is
    registered at most once on its transport (as the constructor leaves
    it).  Then the server has given up its group handle, the engine has
    been asked to close the group once if the handle was there ([natives]
    lists the calls into the engine), and a second [close] returns and
    changes nothing in the world, apart from the timer for the callback it
    is given: it calls nothing in the engine. *)
Theorem server_close_twice react this cb1 cb2 w w1 s :
  Server_close react this cb1 w = (Ret tt, w1) ->
  servers w !! this = Some s ->
  registered_once this w ->
  let w2 := snd (Server_close react this cb2 w1) in
  Server_close react this cb2 w1 = (Ret tt, with_close_timer cb2 w1) /\
  (exists s1, servers w1 !! this = Some s1 /\ serverGroup s1 = None) /\
  natives (trace w1) =
    natives (trace w) ++ match serverGroup s with
                         | Some g => [NGroupClose g]
                         | None => []
                         end /\
  natives (trace w2) = natives (trace w1).
Proof.
  intros Hrun Hs Honce w2.
  destruct (close_releases react this cb1 w w1 s Hrun Hs
              (fun l t hs Hl Ht => Honce s l t hs Hs Hl Ht)) as (Hreleased & Hnatives).
  assert (Hsecond := close_when_released react this cb2 w1 Hreleased).
  split; [exact Hsecond | ].
  split; [destruct Hreleased as (s1 & Hs1 & Hg & _); now exists s1 | ].
  split; [exact Hnatives | ].
  subst w2. rewrite Hsecond. now destruct cb2.
Qed.

Lemma server_close_twice_witness :
  let o := mkOptions (Some 8080) None None false None PmdUndefined None None None in
  let w := snd (Server_constructor quiet (Some o) None (world_of [])) in
  let w1 := snd (Server_close quiet 0 VUndefined w) in
  Server_close quiet 0 VUndefined w = (Ret tt, w1) /\
  registered_once 0 w /\
  (listeners <$> httpServers w !! 0%nat) =
    Some [("request", LDefaultRequest); ("error", LHttpError 0);
          ("newListener", LNewListener 0); ("upgrade", LUpgrade 0)] /\
  Server_close quiet 0 VUndefined w1 = (Ret tt, w1) /\
  natives (trace w) = [NGroupCreate 0 DEFAULT_PAYLOAD_LIMIT 0] /\
  natives (trace w1) = [NGroupCreate 0 DEFAULT_PAYLOAD_LIMIT 0; NGroupClose 0] /\
  natives (trace (snd (Server_close quiet 0 VUndefined w1))) = natives (trace w1).
Proof.
  intros o w w1.
  assert (Hnew : Server_constructor quiet (Some o) None (world_of []) = (Ret 0%nat, w))
    by (vm_compute; reflexivity).
  assert (Honce : registered_once 0 w).
  { apply (constructor_registers_once quiet o None (world_of []) 0%nat w Hnew).
    intros t hs Ht. discriminate Ht. }
  assert (Hrun : Server_close quiet 0 VUndefined w = (Ret tt, w1))
    by (vm_compute; reflexivity).
  assert (Hs : servers w !! 0%nat =
               Some (mkServer (Some 0%nat) (UpgradeFn Noop) (Some (LUpgrade 0)) true false
                       None (Some 0%nat) o))
    by (vm_compute; reflexivity).
  destruct (server_close_twice quiet 0%nat VUndefined VUndefined w w1 _ Hrun Hs Honce)
    as (Hsecond & _ & Hfirst & Hnone).
  split; [exact Hrun | ].
  split; [exact Honce | ].
  split; [vm_compute; reflexivity | ].
  split; [exact Hsecond | ].
  split; [vm_compute; reflexivity | ].
  split; [ | exact Hnone].
  rewrite Hfirst. vm_compute. reflexivity.
Defined.

(** * Further properties of the module *)

(** ** Giving up the engine handle *)

Lemma native_then_clear react c this w w1 :
  bind (native react c) (fun _ => update_ws this (set_external None)) w = (Ret tt, w1) ->
  natives (trace w1) = natives (trace w) ++ [c] /\ closed this w1.
Proof.
  intros H. split; [ | eapply then_closed, H].
  apply bind_returns in H as ([] & wn & Hnative & Hset).
  destruct (native_frame react c w) as (_ & _ & Hn). rewrite Hnative in Hn. cbn [snd] in Hn.
  apply update_ws_returns in Hset as (s & _ & ->). exact Hn.
Qed.

Lemma closed_shutdown_is_noop react this w c :
  closed this w ->
  c = Terminate \/ (exists code data, c = Close code data) \/ (exists m, c = Ping m) ->
  perform react this c w = (Ret tt, w).
Proof.
  intros (s & Hs & He) [-> | [(code & data & ->) | (m & ->)]]; cbn [perform];
    unfold terminate, close, ping; run_ws Hs; now rewrite He.
Qed.

(** X1.  On an open connection a [terminate()] or [close(code, data)] that
    returns has called the engine exactly once, with the connection's
    handle and through the entry point of its variant, and has left the
    connection closed; from then on [terminate], [close] and [ping] return
    without changing anything. *)
Theorem shutdown_happens_once react this w w1 s h c :
  websockets w !! this = Some s ->
  external s = Some h ->
  c = Terminate \/ (exists code data, c = Close code data) ->
  perform react this c w = (Ret tt, w1) ->
  natives (trace w1) = natives (trace w) ++ shutdown_call (variant_of s) h c /\
  closed this w1 /\
  forall c', c' = Terminate \/ (exists code data, c' = Close code data) \/
             (exists m, c' = Ping m) ->
             perform react this c' w1 = (Ret tt, w1).
Proof.
  intros Hs He Hc Hrun.
  assert (H : natives (trace w1) = natives (trace w) ++ shutdown_call (variant_of s) h c /\
              closed this w1).
  { destruct Hc as [-> | (code & data & ->)]; cbn [perform shutdown_call] in *;
      unfold terminate, close in Hrun;
      unfold bind at 1 in Hrun; rewrite (get_ws_at _ _ _ Hs), He in Hrun;
      now apply native_then_clear in Hrun. }
  destruct H as (Hn & Hclosed). split; [exact Hn | split; [exact Hclosed | ]].
  intros c' Hc'. now apply closed_shutdown_is_noop.
Qed.

Lemma shutdown_happens_once_witness :
  let w := world_of [client_ws (Some 7%nat)] in
  let w1 := snd (close quiet 0 (VNum 1000) (VStr "done") w) in
  websockets w !! 0%nat = Some (client_ws (Some 7%nat)) /\
  perform quiet 0 (Close (VNum 1000) (VStr "done")) w = (Ret tt, w1) /\
  natives (trace w1) = [NClose ClientSide 7 (VNum 1000) (VStr "done")] /\
  perform quiet 0 Terminate w1 = (Ret tt, w1) /\
  perform quiet 0 (Ping (VStr "p")) w1 = (Ret tt, w1).
Proof.
  intros w w1.
  assert (Hrun : perform quiet 0 (Close (VNum 1000) (VStr "done")) w = (Ret tt, w1))
    by reflexivity.
  destruct (shutdown_happens_once quiet 0%nat w w1 (client_ws (Some 7%nat)) 7%nat
              (Close (VNum 1000) (VStr "done")) eq_refl eq_refl
              (or_intror (ex_intro _ _ (ex_intro _ _ eq_refl))) Hrun) as (Hn & _ & Hnoop).
  split; [reflexivity | ].
  split; [exact Hrun | ].
  split; [exact Hn | ].
  split; [apply Hnoop; now left | ].
  apply Hnoop. right. right. now exists (VStr "p").
Defined.

(** ** What send hands to the engine *)

Lemma send_open_natives react this w s h message options cb compress :
  websockets w !! this = Some s ->
  external s = Some h ->
  let shifted := String.eqb (typeof options) "function" in
  let cb' := if shifted then options else cb in
  let options' := if shifted then VNull else options in
  natives (trace (snd (send react this message options cb compress w))) =
  natives (trace w) ++
  [NSend (variant_of s) h message (opcode_for message options')
     (if truthy cb' then Wrapper cb' else NoCompletion) compress].
Proof.
  intros Hs He shifted cb' options'. unfold send. unfold bind at 1.
  rewrite (get_ws_at _ _ _ Hs), He.
  now destruct (native_frame react
                  (NSend (variant_of s) h message (opcode_for message options')
                     (if truthy cb' then Wrapper cb' else NoCompletion) compress) w)
    as (_ & _ & Hn).
Qed.

(** X2.  On an open connection [send] makes one call into the engine,
    whatever the engine does meanwhile.  Its opcode is decided by
    [options.binary] only when that is a boolean: [true] gives BINARY and
    [false] gives TEXT, even for a message that is not a string; any other
    [binary] (a number, a string, none) and any [options] that is not an
    object leave the decision to the message, TEXT for a string and BINARY
    for anything else. *)
Theorem send_chooses_opcode react this w s h message options cb compress :
  websockets w !! this = Some s ->
  external s = Some h ->
  exists op done,
    natives (trace (snd (send react this message options cb compress w))) =
    natives (trace w) ++ [NSend (variant_of s) h message op done compress] /\
    (forall fields b, options = VObj fields -> assoc "binary" fields = VBool b ->
       op = if b then OPCODE_BINARY else OPCODE_TEXT) /\
    (String.eqb (typeof (get_prop options "binary")) "boolean" = false ->
       op = if String.eqb (typeof message) "string" then OPCODE_TEXT else OPCODE_BINARY).
Proof.
  intros Hs He. eexists _, _. split; [now apply send_open_natives | split].
  - intros fields b -> Hb. cbn. unfold opcode_for, binary_for. cbn. rewrite Hb. cbn.
    now destruct b.
  - intros Hnot. unfold opcode_for, binary_for.
    destruct (String.eqb (typeof options) "function") eqn:Hf.
    + cbn. now destruct (String.eqb (typeof message) "string").
    + rewrite Hnot, andb_false_r. now destruct (String.eqb (typeof message) "string").
Qed.

Lemma send_chooses_opcode_witness :
  let w := world_of [server_ws (Some 7%nat)] in
  websockets w !! 0%nat = Some (server_ws (Some 7%nat)) /\
  natives (trace (snd (send quiet 0 (VStr "x") (VObj [("binary", VBool true)])
                         VUndefined VUndefined w))) =
    [NSend ServerSide 7 (VStr "x") OPCODE_BINARY NoCompletion VUndefined] /\
  natives (trace (snd (send quiet 0 (VObj []) (VObj [("binary", VNum 1)])
                         VUndefined VUndefined w))) =
    [NSend ServerSide 7 (VObj []) OPCODE_BINARY NoCompletion VUndefined] /\
  natives (trace (snd (send quiet 0 (VStr "x") (VObj [("binary", VNum 1)])
                         VUndefined VUndefined w))) =
    [NSend ServerSide 7 (VStr "x") OPCODE_TEXT NoCompletion VUndefined].
Proof.
  intros w.
  destruct (send_chooses_opcode quiet 0%nat w (server_ws (Some 7%nat)) 7%nat (VStr "x")
              (VObj [("binary", VBool true)]) VUndefined VUndefined eq_refl eq_refl)
    as (op & done & Hn & Hbool & _).
  split; [reflexivity | ].
  split.
  - rewrite Hn, (Hbool _ true eq_refl eq_refl).
    cbn -[OPCODE_BINARY]. f_equal. f_equal.
    assert (H := Hn). vm_compute in H. now injection H as _ <-.
  - split; reflexivity.
Defined.

(** X3.  A callback passed in the place of the options, [send(message, f)],
    is the completion callback only while the connection is open: then the
    engine gets a wrapper of [f], and the opcode follows the message.  On a
    closed connection the same call does nothing at all: [f] is neither
    called nor queued. *)
Theorem callback_in_place_of_options react this w s message f compress :
  websockets w !! this = Some s ->
  match external s with
  | Some h =>
      natives (trace (snd (send react this message (VFun f) VUndefined compress w))) =
      natives (trace w) ++
      [NSend (variant_of s) h message
         (if String.eqb (typeof message) "string" then OPCODE_TEXT else OPCODE_BINARY)
         (Wrapper (VFun f)) compress]
  | None => send react this message (VFun f) VUndefined compress w = (Ret tt, w)
  end.
Proof.
  intros Hs. destruct (external s) as [h | ] eqn:He.
  - rewrite (send_open_natives react this w s h _ _ _ _ Hs He). cbn.
    unfold opcode_for, binary_for. cbn. now destruct (String.eqb (typeof message) "string").
  - rewrite send_when_closed by now exists s. reflexivity.
Qed.

Lemma callback_in_place_of_options_witness :
  let w := world_of [server_ws None; server_ws (Some 7%nat)] in
  websockets w !! 0%nat = Some (server_ws None) /\
  websockets w !! 1%nat = Some (server_ws (Some 7%nat)) /\
  send quiet 0 (VStr "x") (VFun (UserFn 1)) VUndefined VUndefined w = (Ret tt, w) /\
  natives (trace (snd (send quiet 1 (VStr "x") (VFun (UserFn 1)) VUndefined VUndefined w))) =
    [NSend ServerSide 7 (VStr "x") OPCODE_TEXT (Wrapper (VFun (UserFn 1))) VUndefined].
Proof.
  intros w.
  split; [reflexivity | ].
  split; [reflexivity | ].
  split.
  - exact (callback_in_place_of_options quiet 0%nat w (server_ws None) (VStr "x") (UserFn 1)
             VUndefined eq_refl).
  - exact (callback_in_place_of_options quiet 1%nat w (server_ws (Some 7%nat)) (VStr "x")
             (UserFn 1) VUndefined eq_refl).
Defined.

(** ** Handlers installed by once and by the setters *)


Lemma once_installs this w s ev f :
  websockets w !! this = Some s ->
  In ev common_events ->
  slot_of ev s = Some Noop ->
  exists s1,
    WebSocket.once this ev f w = (Ret tt, upd this s1 (with_next (S (next w)) w)) /\
    slot_of ev s1 = Some (OnceWrap (next w) (once_kind_of ev) this f) /\
    slot_of ev (reset_slot (once_kind_of ev) s1) = Some Noop.
Proof.
  intros Hs Hev Hslot.
  each_common_event Hev; cbv [slot_of] in Hslot; cbn in Hslot;
    unfold WebSocket.once; run_ws Hs; rewrite Hslot; cbn -[websockets];
    rewrite (update_ws_upd (with_next (S (next w)) w) this s _ Hs);
    eexists; (split; [reflexivity | split; reflexivity]).
Qed.

(** X4.  A handler installed by [once] on a free slot of one of the five
    common events is called at the first delivery and never again: the
    wrapper resets the slot to the default before it calls the handler.
    The handler gets the message for 'message', the code and the message
    for 'close', and no argument at all for 'open', 'ping' and 'pong'. *)
Theorem once_delivers_once this w s ev id args :
  websockets w !! this = Some s ->
  In ev common_events ->
  slot_of ev s = Some Noop ->
  exists w1 wrapper w2,
    WebSocket.once this ev (UserFn id) w = (Ret tt, w1) /\
    handler_of w1 this ev = Some wrapper /\
    call_slot (handler_of w1 this ev) args w1 = (Ret tt, w2) /\
    trace w2 = trace w ++ [Called id (once_args (once_kind_of ev) args)] /\
    handler_of w2 this ev = Some Noop /\
    call_slot (handler_of w2 this ev) args w2 = (Ret tt, w2).
Proof.
  intros Hs Hev Hslot.
  destruct (once_installs this w s ev (UserFn id) Hs Hev Hslot) as (s1 & Honce & Hs1 & Hreset).
  set (w0 := with_next (S (next w)) w) in *.
  assert (Hs0 : websockets w0 !! this = Some s) by exact Hs.
  assert (H1 : handler_of (upd this s1 w0) this ev =
               Some (OnceWrap (next w) (once_kind_of ev) this (UserFn id)))
    by now rewrite (handler_of_upd _ _ s).
  exists (upd this s1 w0), (OnceWrap (next w) (once_kind_of ev) this (UserFn id)).
  eexists. split; [exact Honce | split; [exact H1 | ]].
  rewrite H1. cbn [call_slot call_fn]. unfold bind.
  rewrite (update_ws_upd _ _ _ _ (upd_at _ _ _ _ Hs0)), upd_upd. cbn [log modify].
  split; [reflexivity | ]. split; [reflexivity | ].
  assert (H2 : handler_of
                 (with_trace (trace (upd this (reset_slot (once_kind_of ev) s1) w0) ++
                              [Called id (once_args (once_kind_of ev) args)])
                    (upd this (reset_slot (once_kind_of ev) s1) w0)) this ev = Some Noop).
  { unfold handler_of. cbn [websockets with_trace].
    rewrite (upd_at _ _ _ _ Hs0). exact Hreset. }
  split; [exact H2 | ]. now rewrite H2.
Qed.

Lemma once_delivers_once_witness :
  let w := world_of [server_ws (Some 7%nat)] in
  let w1 := snd (WebSocket.once 0 "ping" (UserFn 1) w) in
  let w2 := snd (dispatch (EvPing ClientGroup (VStr "payload") 0) w1) in
  websockets w !! 0%nat = Some (server_ws (Some 7%nat)) /\
  In "ping" common_events /\
  (exists w1' wrapper w2',
     WebSocket.once 0 "ping" (UserFn 1) w = (Ret tt, w1') /\
     handler_of w1' 0 "ping" = Some wrapper /\
     call_slot (handler_of w1' 0 "ping") [VStr "payload"] w1' = (Ret tt, w2') /\
     trace w2' = [Called 1 []] /\
     handler_of w2' 0 "ping" = Some Noop /\
     call_slot (handler_of w2' 0 "ping") [VStr "payload"] w2' = (Ret tt, w2')) /\
  trace w2 = [Called 1 []] /\
  trace (snd (dispatch (EvPing ClientGroup (VStr "again") 0) w2)) = [Called 1 []].
Proof.
  intros w w1 w2.
  assert (Hev : In "ping" common_events) by (right; right; right; left; reflexivity).
  split; [reflexivity | ].
  split; [exact Hev | ].
  split; [ | split; reflexivity].
  exact (once_delivers_once 0%nat w (server_ws (Some 7%nat)) "ping" 1%nat [VStr "payload"]
           eq_refl Hev eq_refl).
Defined.

Lemma once_wrapper_is_new f : forall a k t, OnceWrap a k t f <> f.
Proof.
  induction f as [ | id | addr f IH | addr f IH | addr k' t' f IH]; intros a k t H;
    try discriminate.
  injection H as _ _ _ H. now apply IH in H.
Qed.

Lemma onmessage_wrapper_is_new f : forall a, OnmessageWrap a f <> f.
Proof.
  induction f as [ | id | addr f IH | addr f IH | addr k' t' f IH]; intros a H;
    try discriminate.
  injection H as _ H. now apply IH in H.
Qed.

Lemma onclose_wrapper_is_new f : forall a, OncloseWrap a f <> f.
Proof.
  induction f as [ | id | addr f IH | addr f IH | addr k' t' f IH]; intros a H;
    try discriminate.
  injection H as _ H. now apply IH in H.
Qed.

Lemma removeListener_misses w this s ev cb :
  websockets w !! this = Some s ->
  In ev common_events ->
  same_fn (slot_of ev s) cb = false ->
  WebSocket.removeListener this ev cb w = (Ret tt, w).
Proof.
  intros Hs Hev Hslot.
  each_common_event Hev; cbv [slot_of] in Hslot; cbn in Hslot;
    unfold WebSocket.removeListener; run_ws Hs; now rewrite Hslot.
Qed.

(** X5.  [removeListener(event, f)] does not remove a handler that was
    installed with [once(event, f)]: the slot holds a wrapper, which is not
    [f].  The call returns and changes nothing, and the slot stays taken, so
    that a later [on] for the event throws. *)
Theorem removeListener_misses_once_handler this w s ev f g :
  websockets w !! this = Some s ->
  In ev common_events ->
  slot_of ev s = Some Noop ->
  exists w1,
    WebSocket.once this ev f w = (Ret tt, w1) /\
    WebSocket.removeListener this ev f w1 = (Ret tt, w1) /\
    WebSocket.on this ev g w1 = (Throw (Error EE_ERROR), w1).
Proof.
  intros Hs Hev Hslot.
  destruct (once_installs this w s ev f Hs Hev Hslot) as (s1 & Honce & Hs1 & _).
  set (w0 := with_next (S (next w)) w) in *.
  assert (Hs0 : websockets w0 !! this = Some s) by exact Hs.
  exists (upd this s1 w0). split; [exact Honce | split].
  - apply (removeListener_misses _ _ s1); [exact (upd_at _ _ _ _ Hs0) | exact Hev | ].
    rewrite Hs1. cbn. apply bool_decide_eq_false_2, once_wrapper_is_new.
  - apply (on_taken _ _ s1); [exact (upd_at _ _ _ _ Hs0) | now left | ].
    now rewrite Hs1.
Qed.

Lemma removeListener_misses_once_handler_witness :
  let w := world_of [server_ws (Some 7%nat)] in
  websockets w !! 0%nat = Some (server_ws (Some 7%nat)) /\
  In "message" common_events /\
  exists w1,
    WebSocket.once 0 "message" (UserFn 1) w = (Ret tt, w1) /\
    WebSocket.removeListener 0 "message" (UserFn 1) w1 = (Ret tt, w1) /\
    WebSocket.on 0 "message" (UserFn 2) w1 = (Throw (Error EE_ERROR), w1).
Proof.
  intros w.
  assert (Hev : In "message" common_events) by (left; reflexivity).
  split; [reflexivity | ].
  split; [exact Hev | ].
  exact (removeListener_misses_once_handler 0%nat w (server_ws (Some 7%nat)) "message"
           (UserFn 1) (UserFn 2) eq_refl Hev eq_refl).
Defined.

(** X6.  The [onmessage] setter never throws: it replaces whatever the slot
    holds, without the duplicate check of [on].  The handler it installs
    receives an object with the message as [data]; [removeListener] with
    the function that was assigned does not remove it; assigning a falsy
    value resets the slot, after which [on('message', g)] installs [g]. *)
Theorem onmessage_setter_overwrites gr this w s f message g :
  websockets w !! this = Some s ->
  exists w1,
    WebSocket.set_onmessage this (Some f) w = (Ret tt, w1) /\
    dispatch (EvMessage gr message this) w1 = call_fn f [VObj [("data", message)]] w1 /\
    WebSocket.removeListener this "message" f w1 = (Ret tt, w1) /\
    WebSocket.on this "message" g w1 = (Throw (Error EE_ERROR), w1) /\
    exists w2 w3,
      WebSocket.set_onmessage this None w1 = (Ret tt, w2) /\
      WebSocket.on this "message" g w2 = (Ret tt, w3) /\
      handler_of w3 this "message" = Some g.
Proof.
  intros Hs. set (w0 := with_next (S (next w)) w).
  assert (Hs0 : websockets w0 !! this = Some s) by exact Hs.
  set (s1 := set_internalOnMessage (Some (OnmessageWrap (next w) f)) s).
  assert (Hs1 : websockets (upd this s1 w0) !! this = Some s1) by exact (upd_at _ _ _ _ Hs0).
  exists (upd this s1 w0). split; [ | split; [ | split; [ | split]]].
  - unfold WebSocket.set_onmessage. now run_ws Hs.
  - cbn [dispatch]. unfold bind. now rewrite (get_ws_at _ _ _ Hs1).
  - apply (removeListener_misses _ _ s1); [exact Hs1 | now left | ].
    cbn. apply bool_decide_eq_false_2, onmessage_wrapper_is_new.
  - apply (on_taken _ _ s1); [exact Hs1 | left; now left | reflexivity].
  - set (s2 := set_internalOnMessage (Some Noop) s1).
    exists (upd this s2 w0).
    destruct (on_free (upd this s2 w0) this s2 "message" g (upd_at _ _ _ _ Hs0)
                (or_introl (or_introl eq_refl)) eq_refl) as (s3 & Hon & Hs3).
    exists (upd this s3 (upd this s2 w0)). split; [ | split; [exact Hon | ]].
    + cbn [WebSocket.set_onmessage]. rewrite (update_ws_upd _ _ _ _ Hs1). now rewrite upd_upd.
    + now rewrite (handler_of_upd _ _ s2) by exact (upd_at _ _ _ _ Hs0).
Qed.

Lemma onmessage_setter_overwrites_witness :
  let s := set_internalOnMessage (Some (UserFn 9)) (server_ws (Some 7%nat)) in
  let w := world_of [s] in
  websockets w !! 0%nat = Some s /\
  exists w1,
    WebSocket.set_onmessage 0 (Some (UserFn 1)) w = (Ret tt, w1) /\
    trace (snd (dispatch (EvMessage ClientGroup (VStr "m") 0) w1)) =
      [Called 1 [VObj [("data", VStr "m")]]].
Proof.
  intros s w.
  destruct (onmessage_setter_overwrites ClientGroup 0%nat w s (UserFn 1) (VStr "m") (UserFn 2)
              eq_refl) as (w1 & Hset & Hdeliver & _).
  split; [reflexivity | ].
  exists w1. split; [exact Hset | ].
  rewrite Hdeliver. assert (H := Hset). vm_compute in H. injection H as <-. reflexivity.
Defined.

(** ** Messages, the close event and client errors, in order *)





(** X8.  A connection error the engine reports for a client is not
    delivered during the engine's callback: it is queued, and the error
    handler registered by then is called in the next scheduling turn, with
    an object whose [message] and [stack] are both 'uWs client connection
    error'. *)
Theorem client_error_is_deferred this w s id :
  websockets w !! this = Some s ->
  internalOnError s = Some (UserFn id) ->
  ticks w = [] ->
  let w1 := snd (dispatch (EvError this) w) in
  dispatch (EvError this) w = (Ret tt, w1) /\
  trace w1 = trace w /\
  ticks w1 = [TError this] /\
  trace (turns 1 w1) = trace w ++ [Called id [client_error]] /\
  ticks (turns 1 w1) = [].
Proof.
  intros Hs He Hq w1. subst w1. cbn [dispatch]. unfold nextTick, modify. cbn [snd].
  rewrite Hq. cbn [app].
  split; [reflexivity | ]. split; [reflexivity | ]. split; [reflexivity | ].
  rewrite turns_S. change (turns 0 (with_ticks [TError this] w))
    with (with_ticks [TError this] w).
  unfold run_tick, bind, gets. cbn [ticks with_ticks modify run_task]. unfold bind.
  erewrite get_ws_at by exact Hs. rewrite He. now split.
Qed.

Lemma client_error_is_deferred_witness :
  let s := set_internalOnError (Some (UserFn 4)) (client_ws None) in
  let w := world_of [s] in
  let w1 := snd (dispatch (EvError 0) w) in
  websockets w !! 0%nat = Some s /\
  ticks w = [] /\
  trace w1 = [] /\
  trace (turns 1 w1) = [Called 4 [client_error]].
Proof.
  intros s w w1.
  destruct (client_error_is_deferred 0%nat w s 4%nat eq_refl eq_refl eq_refl)
    as (_ & Htrace & _ & Hturn & _).
  split; [reflexivity | ].
  split; [reflexivity | ].
  split; [exact Htrace | exact Hturn].
Defined.

(** ** The handshake that succeeds *)

(** X9.  For a socket that does not come from the engine, with a handle and
    a handshake key of 24 characters, [handleUpgrade] sets the no-delay
    option as the server was configured, transfers the socket to the engine
    (by its file descriptor, or by the handle object itself when the file
    descriptor is -1; a TLS socket by its parent's handle, together with
    its TLS state), leaves the upgrade itself to a listener for the
    socket's 'close' event, and destroys the socket.  The engine is not
    asked to upgrade yet, and nothing is written to the socket. *)
Theorem valid_handshake_is_transferred react w this s r sock head callback h k :
  _isNative sock = false ->
  socket_handle sock = Some h ->
  headers r !! "sec-websocket-key" = Some k ->
  String.length k = 24%nat ->
  servers w !! this = Some s ->
  react (NTransfer (if Z.eqb (fd h) (-1) then ByHandle h else ByFd (fd h)) (ssl sock) (next w))
    = [] ->
  handleUpgrade react this r sock head callback w =
  (Ret tt,
   with_trace
     (trace w ++ ssl_query sock ++
      [SockSetNoDelay (sock_id sock) (_noDelay s);
       Native (NTransfer (if Z.eqb (fd h) (-1) then ByHandle h else ByFd (fd h))
                 (ssl sock) (next w));
       SockOn (sock_id sock) "close" (SLClose this r (next w) k callback);
       SockDestroy (sock_id sock)])
     (with_next (S (next w)) w)).
Proof.
  intros Hnative Hh Hk Hlen Hs Hquiet. unfold handleUpgrade. rewrite Hnative, Hh, Hk.
  assert (Hvalid : negb (String.eqb k "") && Nat.eqb (String.length k) 24 = true).
  { rewrite Hlen. destruct k; [discriminate | reflexivity]. }
  rewrite Hvalid. unfold ssl_query, native_getSSLContext, native_transfer, native.
  destruct (ssl sock) as [c | ]; unfold bind, log, modify, ret, fresh_id;
    cbn [fst snd trace with_trace next with_next];
    (erewrite get_server_at by exact Hs); cbn [fst snd trace with_trace next with_next];
    rewrite Hquiet; cbn; rewrite <- !app_assoc; reflexivity.
Qed.

Lemma valid_handshake_is_transferred_witness :
  let s := mkServer (Some 3%nat) (UpgradeFn Noop) None true true None None
             (mkOptions None None None true None PmdUndefined None None None) in
  let w := with_servers [s] (world_of []) in
  let r := request_for "/chat" "dGhlIHNhbXBsZSBub25jZQ==" in
  _isNative (tcp_socket 7) = false /\
  String.length "dGhlIHNhbXBsZSBub25jZQ==" = 24%nat /\
  handleUpgrade quiet 0 r (tcp_socket 7) VUndefined (Some EmitConnection) w =
  (Ret tt,
   with_trace [SockSetNoDelay 7 true; Native (NTransfer (ByFd 12) None 0);
               SockOn 7 "close" (SLClose 0 r 0 "dGhlIHNhbXBsZSBub25jZQ==" (Some EmitConnection));
               SockDestroy 7]
     (with_next 1 w)).
Proof.
  intros s w r.
  split; [reflexivity | ].
  split; [reflexivity | ].
  exact (valid_handshake_is_transferred quiet w 0%nat s r (tcp_socket 7) VUndefined
           (Some EmitConnection) (mkSockHandle 12 1) "dGhlIHNhbXBsZSBub25jZQ=="
           eq_refl eq_refl eq_refl eq_refl eq_refl eq_refl).
Defined.

(** X10.  When the transferred socket has closed and the server still has
    its group, the engine is asked to upgrade the ticket with the key, the
    extensions and the sub-protocol of the request.  If the engine reports
    the connection from inside that call, a new server-side connection
    object is created in the OPEN state and attached to the handle as its
    user data, 'connection' is emitted once with that object and the
    original request, and after that the shared [upgradeReq] slot reads
    null. *)
Theorem transferred_socket_becomes_connection react w this s g r ticket k e :
  servers w !! this = Some s ->
  serverGroup s = Some g ->
  let upgrade := NUpgrade g (Some ticket) (VStr k)
                   (headers r !! "sec-websocket-extensions")
                   (headers r !! "sec-websocket-protocol") in
  react upgrade = [EvServerConnection this e] ->
  let ws := length (websockets w) in
  let w1 := snd (socket_closed react this r ticket k (Some EmitConnection) w) in
  socket_closed react this r ticket k (Some EmitConnection) w = (Ret tt, w1) /\
  trace w1 = trace w ++ [Native upgrade; EmitConnectionEvent this ws (Some r)] /\
  websockets w1 = websockets w ++ [server_ws (Some e)] /\
  userData w1 !! e = Some ws /\
  WebSocket_upgradeReq ws w1 = (Ret None, w1).
Proof.
  intros Hs Hg upgrade Hreact ws w1.
  enough (H : exists w',
             socket_closed react this r ticket k (Some EmitConnection) w = (Ret tt, w') /\
             trace w' = trace w ++ [Native upgrade; EmitConnectionEvent this ws (Some r)] /\
             websockets w' = websockets w ++ [server_ws (Some e)] /\
             userData w' !! e = Some ws /\
             _upgradeReq w' = None).
  { destruct H as (w' & Hrun & Ht & Hw & Hu & Hr). subst w1. rewrite Hrun. cbn [snd].
    repeat split; try assumption. unfold WebSocket_upgradeReq, gets. now rewrite Hr. }
  eexists. unfold socket_closed.
  unfold bind at 1. rewrite (get_server_at _ _ _ Hs), Hg.
  unfold bind at 1. cbn [modify].
  unfold bind at 1. rewrite (update_server_at (with_upgradeReq (Some r) w) this s _ Hs).
  unfold native. fold upgrade. rewrite Hreact. cbn [for_each dispatch].
  unfold bind, log, modify, ret, WebSocket.constructor, new_ws, get_server.
  cbn [fst snd servers with_servers with_trace with_upgradeReq with_websockets with_userData
         websockets trace userData _upgradeReq].
  rewrite (list_lookup_insert_eq _ _ _ (lookup_lt_Some _ _ _ Hs)).
  cbn [_upgradeCallback set_upgradeCallback or_noop call_upgrade_callback].
  unfold bind, gets, log, modify.
  cbn [fst snd servers with_servers with_trace with_upgradeReq with_websockets with_userData
         websockets trace userData _upgradeReq].
  split; [reflexivity | ]. split; [now rewrite <- app_assoc | ].
  split; [reflexivity | ]. split; [apply lookup_insert_eq | reflexivity].
Qed.

Lemma transferred_socket_becomes_connection_witness :
  let s := mkServer (Some 3%nat) (UpgradeFn Noop) None true true None None
             (mkOptions None None None true None PmdUndefined None None None) in
  let w := with_servers [s] (world_of [server_ws (Some 7%nat)]) in
  let r := request_for "/chat" "dGhlIHNhbXBsZSBub25jZQ==" in
  let w1 := snd (socket_closed connecting 0 r 5 "dGhlIHNhbXBsZSBub25jZQ=="
                   (Some EmitConnection) w) in
  servers w !! 0%nat = Some s /\
  trace w1 = [Native (NUpgrade 3 (Some 5%nat) (VStr "dGhlIHNhbXBsZSBub25jZQ==") None None);
              EmitConnectionEvent 0 1 (Some r)] /\
  websockets w1 = [server_ws (Some 7%nat); server_ws (Some 40%nat)] /\
  userData w1 !! 40%nat = Some 1%nat /\
  WebSocket_upgradeReq 1 w1 = (Ret None, w1).
Proof.
  intros s w r w1.
  destruct (transferred_socket_becomes_connection connecting w 0%nat s 3%nat r 5%nat
              "dGhlIHNhbXBsZSBub25jZQ==" 40%nat eq_refl eq_refl eq_refl)
    as (_ & Ht & Hw & Hu & Hr).
  split; [reflexivity | ].
  split; [exact Ht | ].
  split; [exact Hw | ].
  split; [exact Hu | exact Hr].
Defined.

(** ** A server that has been closed *)

Lemma close_clears_group react this cb w w1 :
  Server_close react this cb w = (Ret tt, w1) ->
  server_has this (fun s => serverGroup s = None) w1.
Proof.
  intros Hrun. unfold Server_close in Hrun.
  apply bind_returns in Hrun as (s & w0 & _ & Hrun).
  apply bind_returns in Hrun as ([] & wa & _ & Hrun).
  apply bind_returns in Hrun as (s1 & w0' & Hget & Hrun).
  unfold get_server in Hget. destruct (servers wa !! this) as [sa | ] eqn:Hsa; [ | discriminate].
  injection Hget as <- <-.
  apply bind_returns in Hrun as ([] & wb & Hgroup & Htimer).
  assert (Hb : server_has this (fun s => serverGroup s = None) wb).
  { destruct (serverGroup sa) as [g | ] eqn:Hg.
    - apply bind_returns in Hgroup as ([] & wn & _ & Hset).
      apply update_server_returns in Hset as (sn & Hsn & ->).
      exists (set_serverGroup None sn). split; [ | reflexivity].
      cbn. apply list_lookup_insert_eq. eapply lookup_lt_Some, Hsn.
    - injection Hgroup as <-. now exists sa. }
  destruct cb; injection Htimer as <-; exact Hb.
Qed.

(** X11.  After [Server.close()] has returned, the server never uses its
    group again: [broadcast] and [startAutoPing] call nothing, [clients] is
    undefined, a socket transferred before the close is not upgraded when
    its 'close' event arrives, and [handleUpgrade] for a socket that comes
    from the engine returns without doing anything. *)
Theorem closed_server_is_inert react this cb w0 w :
  Server_close react this cb w0 = (Ret tt, w) ->
  (forall message options, Server_broadcast this message options w = (Ret None, w)) /\
  (forall interval userMessage,
     Server_startAutoPing this interval userMessage w = (Ret None, w)) /\
  Server_clients this w = (Ret None, w) /\
  (forall r ticket k callback, socket_closed react this r ticket k callback w = (Ret tt, w)) /\
  (forall r sock head callback, _isNative sock = true ->
     handleUpgrade react this r sock head callback w = (Ret tt, w)).
Proof.
  intros Hrun. destruct (close_clears_group react this cb w0 w Hrun) as (s & Hs & Hg).
  repeat split; intros;
    unfold Server_broadcast, Server_startAutoPing, Server_clients, socket_closed, handleUpgrade;
    try match goal with H : _isNative _ = true |- _ => rewrite H end;
    unfold bind; rewrite (get_server_at _ _ _ Hs), Hg; reflexivity.
Qed.

Lemma closed_server_is_inert_witness :
  let o := mkOptions (Some 8080) None None false None PmdUndefined None None None in
  let w0 := snd (Server_constructor quiet (Some o) None (world_of [])) in
  let w := snd (Server_close quiet 0 VUndefined w0) in
  let r := request_for "/chat" "dGhlIHNhbXBsZSBub25jZQ==" in
  Server_close quiet 0 VUndefined w0 = (Ret tt, w) /\
  Server_broadcast 0 (VStr "all") VUndefined w0 =
    (Ret (Some (QBroadcast 0 (VStr "all") (VBool false))), w0) /\
  Server_broadcast 0 (VStr "all") VUndefined w = (Ret None, w) /\
  Server_clients 0 w = (Ret None, w) /\
  socket_closed quiet 0 r 5 "dGhlIHNhbXBsZSBub25jZQ==" (Some EmitConnection) w = (Ret tt, w) /\
  handleUpgrade quiet 0 r (native_socket 8) VUndefined None w = (Ret tt, w).
Proof.
  intros o w0 w r.
  assert (Hrun : Server_close quiet 0 VUndefined w0 = (Ret tt, w))
    by (vm_compute; reflexivity).
  destruct (closed_server_is_inert quiet 0%nat VUndefined w0 w Hrun)
    as (Hb & _ & Hc & Hs & Hn).
  split; [exact Hrun | ].
  split; [vm_compute; reflexivity | ].
  split; [apply Hb | ].
  split; [exact Hc | ].
  split; [apply Hs | ].
  now apply Hn.
Defined.

(** ** The path filter *)

Lemma before_free c p : free_of c p = true -> before c p = p.
Proof.
  induction p as [ | a p IH]; [reflexivity | ]. cbn [free_of before].
  intros H. apply andb_true_iff in H as (Ha & Hp).
  destruct (Ascii.eqb a c); [discriminate | ]. now rewrite IH.
Qed.

Lemma before_cut c p rest :
  free_of c p = true -> before c (p +:+ String c rest) = p.
Proof.
  induction p as [ | a p IH].
  - intros _. change (before c ("" +:+ String c rest))
      with (if Ascii.eqb c c then EmptyString else String c (before c rest)).
    now rewrite Ascii.eqb_refl.
  - cbn [free_of]. intros H. apply andb_true_iff in H as (Ha & Hp).
    change (before c (String a p +:+ String c rest))
      with (if Ascii.eqb a c then EmptyString else String a (before c (p +:+ String c rest))).
    destruct (Ascii.eqb a c); [discriminate | ]. now rewrite IH.
Qed.

Lemma before_app_free c d p rest :
  free_of c p = true ->
  before c (p +:+ String d rest) = p +:+ before c (String d rest).
Proof.
  induction p as [ | a p IH]; [reflexivity | ]. cbn [free_of].
  intros H. apply andb_true_iff in H as (Ha & Hp).
  change (String a p +:+ before c (String d rest))
    with (String a (p +:+ before c (String d rest))).
  change (before c (String a p +:+ String d rest))
    with (if Ascii.eqb a c then EmptyString else String a (before c (p +:+ String d rest))).
  destruct (Ascii.eqb a c); [discriminate | ]. now rewrite IH.
Qed.

Lemma append_empty p : p +:+ "" = p.
Proof.
  induction p as [ | a p IH]; [reflexivity | ].
  change (String a p +:+ "") with (String a (p +:+ "")). now rewrite IH.
Qed.

Lemma url_path_of p rest :
  free_of "?" p = true ->
  free_of "#" p = true ->
  empty_or_starts_with "?" rest || empty_or_starts_with "#" rest = true ->
  url_path (p +:+ rest) = p.
Proof.
  intros Hq Hf Hrest. unfold url_path. destruct rest as [ | a rest].
  - rewrite append_empty, (before_free "?" p Hq). exact (before_free "#" p Hf).
  - cbn [empty_or_starts_with] in Hrest. apply orb_true_iff in Hrest as [Ha | Ha];
      apply Ascii.eqb_eq in Ha; subst a.
    + rewrite before_cut by exact Hq. exact (before_free "#" p Hf).
    + rewrite before_app_free by exact Hq. cbn [before]. change (Ascii.eqb "#" "?") with false.
      cbn iota. now apply before_cut.
Qed.

(** X12.  The path filter compares the configured path with the request
    target up to its first '?' or '#': a request for the configured path
    followed by a query string, by a fragment or by nothing passes the
    filter and, when no [verifyClient] is configured, goes on to
    [handleUpgrade] with [emitConnection] as the callback. *)
Theorem path_filter_ignores_query_and_fragment react w this s r sock head p rest :
  servers w !! this = Some s ->
  path (captured s) = Some p ->
  verifyClient (captured s) = None ->
  free_of "?" p = true ->
  free_of "#" p = true ->
  empty_or_starts_with "?" rest || empty_or_starts_with "#" rest = true ->
  url r = p +:+ rest ->
  url_path (url r) = p /\
  upgradeListener react this r sock head w =
  handleUpgrade react this r sock head (Some EmitConnection)
    (with_trace (trace w ++ [SockOn (sock_id sock) "error" (SLError this);
                             SockOn (sock_id sock) "_tlsError" (SLTlsError this)]) w).
Proof.
  intros Hs Hp Hv Hq Hf Hrest Hurl.
  assert (Hpath : url_path (url r) = p) by (rewrite Hurl; now apply url_path_of).
  split; [exact Hpath | ].
  unfold upgradeListener, bind, log, modify. erewrite get_server_at by exact Hs.
  rewrite Hp, Hv, Hpath, bool_decide_eq_true_2 by reflexivity.
  rewrite orb_true_r. cbn [trace with_trace]. now rewrite <- app_assoc.
Qed.

Lemma path_filter_ignores_query_and_fragment_witness :
  let o := mkOptions None None None true (Some "/chat") PmdUndefined None None None in
  let s := mkServer (Some 3%nat) (UpgradeFn Noop) None true true None None o in
  let w := with_servers [s] (world_of []) in
  let r := mkRequest "/chat?room=1#top" ∅ false false in
  servers w !! 0%nat = Some s /\
  url r = "/chat" +:+ "?room=1#top" /\
  url_path (url r) = "/chat" /\
  trace (snd (upgradeListener quiet 0 r (tcp_socket 7) VUndefined w)) =
  [SockOn 7 "error" (SLError 0); SockOn 7 "_tlsError" (SLTlsError 0); SockDestroy 7].
Proof.
  intros o s w r.
  destruct (path_filter_ignores_query_and_fragment quiet w 0%nat s r (tcp_socket 7) VUndefined
              "/chat" "?room=1#top" eq_refl eq_refl eq_refl eq_refl eq_refl eq_refl eq_refl)
    as (Hpath & Hpass).
  split; [reflexivity | ].
  split; [reflexivity | ].
  split; [exact Hpath | ].
  rewrite Hpass. reflexivity.
Defined.


(** ** What the constructor builds *)

Lemma emitter_on_appends t ev x w w' l b :
  emitter_on t ev x w = (Ret tt, w') ->
  transport_is t l b w ->
  transport_is t (l ++ [(ev, x)]) b w'.
Proof.
  intros Hon Ht. unfold transport_is in *.
  apply emitter_on_returns in Hon as (hs0 & w1 & hs1 & _ & Hfor & Hhs1 & ->).
  pose proof (notifications_keep_transports ev (newListener_listeners hs0) w) as Hkeep.
  rewrite Hfor in Hkeep. cbn [snd] in Hkeep.
  rewrite Hkeep, Ht in Hhs1. injection Hhs1 as <-.
  cbn. apply list_lookup_insert_eq. rewrite Hkeep. eapply lookup_lt_Some, Ht.
Qed.

Lemma transport_is_update_server t l b a f :
  preserves (transport_is t l b) (update_server a f).
Proof.
  unfold update_server. apply preserves_bind; [apply preserves_get_server | intros s].
  apply preserves_modify. intros w H. exact H.
Qed.

Lemma preserved_by_return {A} (P : world -> Prop) (m : M A) w a w' :
  preserves P m -> m w = (Ret a, w') -> P w -> P w'.
Proof. intros Hm Hrun Hw. specialize (Hm w Hw). now rewrite Hrun in Hm. Qed.

(** The fields of the new server and the state of its transport after a
    constructor that installed the upgrade listener. *)
Lemma constructor_outcome react o callback w this w1 :
  Server_constructor react (Some o) callback w = (Ret this, w1) ->
  noServer o = false ->
  let t := default (length (httpServers w)) (server o) in
  server_has this (fun s => _upgradeListener s = Some (LUpgrade this) /\
                            httpServer s = Some t /\
                            _passedHttpServer s = server o /\
                            captured s = set_path (normalise_path (path o)) o /\
                            serverGroup s = Some (next w)) w1 /\
  forall l b,
    match server o with
    | Some _ => transport_is t l b w
    | None => l = [("request", LDefaultRequest)] /\ b = false
    end ->
    transport_is t (l ++ [("error", LHttpError this); ("newListener", LNewListener this);
                          ("upgrade", LUpgrade this)])
      (match port o with Some _ => true | None => b end) w1.
Proof.
  intros Hrun Hno t. unfold Server_constructor in Hrun. rewrite Hno in Hrun.
  destruct (bool_decide (port o = None) && bool_decide (server o = None) && negb false);
    [discriminate | ].
  apply bind_returns in Hrun as (g & wa & Hcreate & Hrun).
  apply bind_returns in Hrun as (this' & wb & Hnew & Hrun).
  apply bind_returns in Hrun as ([] & wc & Hwhen & Hrun).
  apply bind_returns in Hrun as ([] & wd & Hlisten & Hret).
  injection Hret as <- <-.
  assert (Ha : httpServers wa = httpServers w /\ g = next w).
  { unfold native_group_create in Hcreate.
    apply bind_returns in Hcreate as (g' & w0 & Hid & Hcreate).
    injection Hid as <- <-.
    apply bind_returns in Hcreate as ([] & wn & Hnative & Hret).
    injection Hret as <- <-.
    destruct (native_frame react (NGroupCreate (nativeOptions_of (perMessageDeflate_ o))
                                    (default DEFAULT_PAYLOAD_LIMIT (maxPayload o)) (next w))
                (with_next (S (next w)) w)) as (_ & H2 & _).
    now rewrite Hnative in H2. }
  destruct Ha as (Ha & ->).
  injection Hnew as <- <-.
  set (this := length (servers wa)) in *.
  set (s0 := mkServer (Some (next w)) (UpgradeFn Noop) None (default true (noDelay o)) true
               (server o) None o) in *.
  set (wb := with_servers (servers wa ++ [s0]) wa) in *.
  assert (Hwb : servers wb !! this = Some s0).
  { subst wb this. cbn. rewrite lookup_app_r by lia. now rewrite Nat.sub_diag. }
  cbn [negb when] in Hwhen.
  apply bind_returns in Hwhen as (t' & w2 & Ht & Hwhen).
  apply bind_returns in Hwhen as ([] & w3 & Hset1 & Hwhen).
  apply bind_returns in Hwhen as ([] & w4 & Hset2 & Hwhen).
  apply bind_returns in Hwhen as ([] & w5 & Herror & Hwhen).
  apply bind_returns in Hwhen as ([] & w6 & Hhook & Hwhen).
  apply bind_returns in Hwhen as ([] & w7 & Hset3 & Hupgrade).
  assert (H2 : t' = t /\ servers w2 !! this = Some s0 /\
               forall l b,
                 match server o with
                 | Some _ => transport_is t l b w
                 | None => l = [("request", LDefaultRequest)] /\ b = false
                 end -> transport_is t l b w2).
  { subst t. destruct (server o) as [t0 | ] eqn:Hserver.
    - injection Ht as <- <-. repeat split; [exact Hwb | ].
      intros l b Hl. unfold transport_is in *. subst wb. cbn. now rewrite Ha.
    - injection Ht as <- <-. cbn [default]. subst wb. cbn [httpServers with_servers].
      rewrite Ha. repeat split; [exact Hwb | ].
      intros l b (-> & ->). unfold transport_is. cbn.
      rewrite lookup_app_r by lia. now rewrite Nat.sub_diag. }
  destruct H2 as (-> & Hs2 & Ht2).
  pose (Q3 := fun s : Server => httpServer s = Some t /\ _passedHttpServer s = server o /\
                                serverGroup s = Some (next w)).
  assert (Hq3 : server_has this Q3 w3).
  { apply update_server_returns in Hset1 as (s & Hs & ->).
    rewrite Hs2 in Hs. injection Hs as <-.
    exists (set_httpServer (Some t) s0). split; [ | now repeat split].
    cbn. apply list_lookup_insert_eq. eapply lookup_lt_Some, Hs2. }
  pose (Q4 := fun s : Server => httpServer s = Some t /\ _passedHttpServer s = server o /\
                                captured s = set_path (normalise_path (path o)) o /\
                                serverGroup s = Some (next w)).
  assert (Hq4 : server_has this Q4 w4).
  { destruct Hq3 as (s3 & Hs3 & Hh & Hp & Hg).
    apply update_server_returns in Hset2 as (s & Hs & ->).
    rewrite Hs3 in Hs. injection Hs as <-.
    eexists. split; [cbn; apply list_lookup_insert_eq; eapply lookup_lt_Some, Hs3 | ].
    now repeat split. }
  assert (Hq6 : server_has this Q4 w6).
  { apply (preserved_by_return _ _ _ _ _ (server_has_emitter_on this Q4
             ltac:(now intros s b) t "newListener" (LNewListener this)) Hhook).
    apply (preserved_by_return _ _ _ _ _ (server_has_emitter_on this Q4
             ltac:(now intros s b) t "error" (LHttpError this)) Herror).
    exact Hq4. }
  pose (Q := fun s : Server => _upgradeListener s = Some (LUpgrade this) /\
                               httpServer s = Some t /\ _passedHttpServer s = server o /\
                               captured s = set_path (normalise_path (path o)) o /\
                               serverGroup s = Some (next w)).
  assert (Hq7 : server_has this Q w7).
  { destruct Hq6 as (s6 & Hs6 & Hh & Hp & Hc & Hg).
    apply update_server_returns in Hset3 as (s & Hs & ->).
    rewrite Hs6 in Hs. injection Hs as <-.
    eexists. split; [cbn; apply list_lookup_insert_eq; eapply lookup_lt_Some, Hs6 | ].
    now repeat split. }
  assert (Hqc : server_has this Q wc).
  { apply (preserved_by_return _ _ _ _ _ (server_has_emitter_on this Q
             ltac:(now intros s b) t "upgrade" (LUpgrade this)) Hupgrade). exact Hq7. }
  assert (Htc : forall l b,
             match server o with
             | Some _ => transport_is t l b w
             | None => l = [("request", LDefaultRequest)] /\ b = false
             end ->
             transport_is t (l ++ [("error", LHttpError this);
                                   ("newListener", LNewListener this);
                                   ("upgrade", LUpgrade this)]) b wc).
  { intros l b Hl. specialize (Ht2 l b Hl).
    apply (preserved_by_return _ _ _ _ _ (transport_is_update_server t l b _ _) Hset1) in Ht2.
    apply (preserved_by_return _ _ _ _ _ (transport_is_update_server t l b _ _) Hset2) in Ht2.
    apply (emitter_on_appends _ _ _ _ _ _ _ Herror) in Ht2.
    apply (emitter_on_appends _ _ _ _ _ _ _ Hhook) in Ht2.
    apply (preserved_by_return _ _ _ _ _ (transport_is_update_server t _ b _ _) Hset3) in Ht2.
    apply (emitter_on_appends _ _ _ _ _ _ _ Hupgrade) in Ht2.
    now rewrite <- !app_assoc in Ht2. }
  destruct (port o) as [p | ]; [ | injection Hlisten as <-; now split].
  destruct Hqc as (sc & Hsc & HQ).
  apply bind_returns in Hlisten as (s' & w0 & Hget & Hlisten).
  rewrite (get_server_at _ _ _ Hsc) in Hget. injection Hget as <- <-.
  destruct HQ as (Hl & Hh & Hrest). rewrite Hh in Hlisten.
  unfold http_listen in Hlisten.
  apply bind_returns in Hlisten as ([] & wl & Hup & Hlog).
  apply update_http_returns in Hup as (hs & Hhs & ->). injection Hlog as <-.
  split; [now exists sc | ].
  intros l b Hlb. specialize (Htc l b Hlb). unfold transport_is in *.
  rewrite Htc in Hhs. injection Hhs as <-. cbn.
  apply list_lookup_insert_eq. eapply lookup_lt_Some, Htc.
Qed.

(** X13.  A server that installs its upgrade listener keeps the configured
    path in normal form: a non-empty path always begins with '/' (one is put
    in front when it is missing), a missing or empty path is left as it is,
    and normalising twice changes nothing, so that 'chat' and '/chat' set up
    the same filter. *)
Theorem configured_path_is_absolute react o callback w this w1 :
  Server_constructor react (Some o) callback w = (Ret this, w1) ->
  noServer o = false ->
  server_has this (fun s => path (captured s) = normalise_path (path o)) w1 /\
  (path_set (path o) = true -> exists rest, normalise_path (path o) = Some (String "/" rest)) /\
  (path_set (path o) = false -> normalise_path (path o) = path o) /\
  normalise_path (normalise_path (path o)) = normalise_path (path o).
Proof.
  intros Hrun Hno.
  destruct (constructor_outcome react o callback w this w1 Hrun Hno)
    as ((s & Hs & _ & _ & _ & Hc & _) & _).
  split; [exists s; split; [exact Hs | now rewrite Hc] | ].
  destruct (path o) as [[ | a p] | ]; cbn.
  - repeat split; discriminate.
  - destruct (Ascii.eqb a "/") eqn:Ha.
    + apply Ascii.eqb_eq in Ha. subst a. repeat split; try discriminate. now eexists.
    + repeat split; try discriminate. now eexists.
  - repeat split; discriminate.
Qed.

Lemma configured_path_is_absolute_witness :
  let o := mkOptions None None (Some 0%nat) false (Some "chat") PmdUndefined None None None in
  let w := with_httpServers [mkHttpServer [] true] (world_of []) in
  let w1 := snd (Server_constructor quiet (Some o) None w) in
  Server_constructor quiet (Some o) None w = (Ret 0%nat, w1) /\
  noServer o = false /\
  server_has 0 (fun s => path (captured s) = Some "/chat") w1 /\
  normalise_path (Some "/chat") = Some "/chat".
Proof.
  intros o w w1.
  assert (Hrun : Server_constructor quiet (Some o) None w = (Ret 0%nat, w1))
    by (vm_compute; reflexivity).
  destruct (configured_path_is_absolute quiet o None w 0%nat w1 Hrun eq_refl)
    as (Hhas & _ & _ & Hidem).
  split; [exact Hrun | ].
  split; [reflexivity | ].
  split; [exact Hhas | exact Hidem].
Defined.







(** X16.  The methods of a live server that has a transport address the
    group its constructor created: [broadcast] and [startAutoPing] pass their arguments on with
    that group, [clients] reads its size, and none of them changes
    anything.  The binary flag [broadcast] hands over is [options.binary]
    when that is truthy and the boolean [false] in every other case, also
    without options. *)
Theorem live_server_addresses_its_group react o callback w this w1 message options
    interval userMessage :
  Server_constructor react (Some o) callback w = (Ret this, w1) ->
  noServer o = false ->
  Server_broadcast this message options w1 =
    (Ret (Some (QBroadcast (next w) message (broadcast_binary options))), w1) /\
  Server_startAutoPing this interval userMessage w1 =
    (Ret (Some (QStartAutoPing (next w) interval userMessage)), w1) /\
  Server_clients this w1 = (Ret (Some (QGetSize (next w), next w)), w1) /\
  (truthy (broadcast_binary options) = false -> broadcast_binary options = VBool false) /\
  (truthy (get_prop options "binary") = true -> truthy options = true ->
   broadcast_binary options = get_prop options "binary").
Proof.
  intros Hnew Hno.
  destruct (constructor_outcome react o callback w this w1 Hnew Hno)
    as ((s & Hs & _ & _ & _ & _ & Hg) & _).
  unfold Server_broadcast, Server_startAutoPing, Server_clients, bind.
  rewrite (get_server_at _ _ _ Hs), Hg.
  repeat split.
  - unfold broadcast_binary.
    destruct (truthy (if truthy options then get_prop options "binary" else options)) eqn:Hv;
      [ | reflexivity].
    intros Hf. now rewrite Hf in Hv.
  - intros Hb Ho. unfold broadcast_binary. now rewrite Ho, Hb.
Qed.

Lemma live_server_addresses_its_group_witness :
  let o := mkOptions (Some 8080) None None false None PmdUndefined None None None in
  let w := world_of [] in
  let w1 := snd (Server_constructor quiet (Some o) None w) in
  Server_constructor quiet (Some o) None w = (Ret 0%nat, w1) /\
  Server_broadcast 0 (VStr "x") VUndefined w1 =
    (Ret (Some (QBroadcast 0 (VStr "x") (VBool false))), w1) /\
  Server_clients 0 w1 = (Ret (Some (QGetSize 0, 0%nat)), w1).
Proof.
  intros o w w1.
  assert (Hnew : Server_constructor quiet (Some o) None w = (Ret 0%nat, w1))
    by (vm_compute; reflexivity).
  destruct (live_server_addresses_its_group quiet o None w 0%nat w1 (VStr "x") VUndefined
              VUndefined VUndefined Hnew eq_refl) as (Hb & _ & Hc & _).
  split; [exact Hnew | ].
  split; [exact Hb | exact Hc].
Defined.

(** ** Options the constructor cannot serve *)



(** ** A client connection from construction to open *)

(** X18.  [new WebSocketClient(uri)] asks the engine once to connect and
    gives an object that reads CLOSED, not a connecting state (the engine is
    taken not to call back during that call).  When the
    engine then reports the connection under a handle, the handler
    registered for 'open' in between is called once, without arguments; the
    object holds the handle, reads OPEN, uses the client entry points, and
    is the handle's user data. *)
Theorem client_opens_on_engine_report react uri f ext w :
  react (NConnect uri (length (websockets w))) = [] ->
  let this := length (websockets w) in
  exists w1 w2 w3 s,
    WebSocketClient_constructor react uri w = (Ret this, w1) /\
    closed this w1 /\
    WebSocket.on this "open" (UserFn f) w1 = (Ret tt, w2) /\
    dispatch (EvClientConnection ext this) w2 = (Ret tt, w3) /\
    trace w3 = trace w ++ [Native (NConnect uri this); Called f []] /\
    userData w3 !! ext = Some this /\
    websockets w3 !! this = Some s /\
    external s = Some ext /\ WebSocket.readyState s = OPEN /\ variant_of s = ClientSide.
Proof.
  intros Hquiet this. change (length (websockets w)) with this in Hquiet.
  set (w1 := with_trace (trace w ++ [Native (NConnect uri this)])
               (with_websockets (websockets w ++ [client_ws None]) w)).
  assert (Hnew : WebSocketClient_constructor react uri w = (Ret this, w1)).
  { unfold WebSocketClient_constructor, new_ws, native, bind, log, modify. cbn.
    fold this. rewrite Hquiet. reflexivity. }
  assert (Hs1 : websockets w1 !! this = Some (client_ws None)).
  { subst w1 this. cbn. rewrite lookup_app_r by lia. now rewrite Nat.sub_diag. }
  set (s2 := set_internalOnOpen (Some (UserFn f)) (client_ws None)).
  assert (Hon : WebSocket.on this "open" (UserFn f) w1 = (Ret tt, upd this s2 w1)).
  { unfold WebSocket.on. run_ws Hs1. reflexivity. }
  assert (Hs2 : websockets (upd this s2 w1) !! this = Some s2) by apply (upd_at _ _ _ _ Hs1).
  set (w2 := upd this s2 w1) in *.
  set (s3 := set_external (Some ext) s2).
  set (w2' := with_userData (<[ext := this]> (userData w2)) w2).
  assert (Hs2' : websockets w2' !! this = Some s2) by exact Hs2.
  set (w3 := with_trace (trace w2' ++ [Called f []]) (upd this s3 w2')).
  assert (Hopen : dispatch (EvClientConnection ext this) w2 = (Ret tt, w3)).
  { unfold dispatch. unfold bind at 1. unfold modify at 1. fold w2'.
    unfold bind at 1. rewrite (update_ws_upd _ _ _ _ Hs2').
    fold s3. unfold bind. rewrite (get_ws_at _ _ _ (upd_at _ _ _ s3 Hs2')). reflexivity. }
  exists w1, w2, w3, s3.
  split; [exact Hnew | ].
  split; [now exists (client_ws None) | ].
  split; [exact Hon | ].
  split; [exact Hopen | ].
  split; [subst w3 w2' w2 w1; cbn; now rewrite <- app_assoc | ].
  split; [subst w3 w2'; cbn; apply lookup_insert_eq | ].
  split; [subst w3; cbn; apply (upd_at _ _ _ s3 Hs2') | ].
  now repeat split.
Qed.

Lemma client_opens_on_engine_report_witness :
  exists w1 w2 w3 s,
    WebSocketClient_constructor quiet (VStr "ws://host") (world_of []) = (Ret 0%nat, w1) /\
    closed 0 w1 /\
    WebSocket.on 0 "open" (UserFn 1) w1 = (Ret tt, w2) /\
    dispatch (EvClientConnection 7 0) w2 = (Ret tt, w3) /\
    trace w3 = [Native (NConnect (VStr "ws://host") 0); Called 1 []] /\
    userData w3 !! 7%nat = Some 0%nat /\
    websockets w3 !! 0%nat = Some s /\
    external s = Some 7%nat /\ WebSocket.readyState s = OPEN /\ variant_of s = ClientSide.
Proof.
  exact (client_opens_on_engine_report quiet (VStr "ws://host") 1 7 (world_of []) eq_refl).
Defined.

(** ** emit and removeAllListeners *)

(** X19.  A handler registered with [on] for 'message', 'close', 'ping' or
    'pong' is what [emit] of that event calls, at once and with the event's
    arguments: both for 'close', the first one for the others.  [emit] does
    not know 'open' and 'error': emitting them returns without calling the
    registered handler. *)
Theorem emit_reaches_registered_handler this s ev f a b w w1 :
  websockets w !! this = Some s ->
  In ev common_events \/ ev = "error" ->
  WebSocket.on this ev (UserFn f) w = (Ret tt, w1) ->
  WebSocket.emit this ev a b w1 =
    (Ret tt,
     if String.eqb ev "open" || String.eqb ev "error" then w1
     else with_trace (trace w1 ++ [Called f (if String.eqb ev "close" then [a; b]
                                             else [a])]) w1).
Proof.
  intros Hs Hev Hon.
  assert (Hw1 : exists s1, websockets w1 !! this = Some s1 /\
                           (In ev common_events -> slot_of ev s1 = Some (UserFn f))).
  { unfold WebSocket.on in Hon. unfold bind at 1 in Hon.
    rewrite (get_ws_at _ _ _ Hs) in Hon.
    destruct Hev as [Hev | ->].
    - each_common_event Hev; cbn in Hon;
        match type of Hon with
        | (if ?c then _ else _) _ = _ =>
            destruct c; [discriminate | ];
            rewrite (update_ws_upd _ _ _ _ Hs) in Hon; injection Hon as <-;
            eexists; split; [apply (upd_at _ _ _ _ Hs) | reflexivity]
        end.
    - cbn in Hon. destruct (isClient s).
      + destruct (not_noop (internalOnError s)); [discriminate | ].
        rewrite (update_ws_upd _ _ _ _ Hs) in Hon. injection Hon as <-.
        eexists; split; [apply (upd_at _ _ _ _ Hs) | ].
        intros H. each_common_event H; discriminate.
      + injection Hon as <-. exists s. split; [exact Hs | ].
        intros H. each_common_event H; discriminate. }
  destruct Hw1 as (s1 & Hs1 & Hslot).
  unfold WebSocket.emit, bind. rewrite (get_ws_at _ _ _ Hs1).
  destruct Hev as [Hev | ->]; [ | reflexivity].
  specialize (Hslot Hev).
  each_common_event Hev; cbv [slot_of] in Hslot; cbn in Hslot; cbn; try rewrite Hslot;
    reflexivity.
Qed.

Lemma emit_reaches_registered_handler_witness :
  let w := world_of [server_ws None] in
  let w1 := snd (WebSocket.on 0 "close" (UserFn 1) w) in
  websockets w !! 0%nat = Some (server_ws None) /\
  WebSocket.on 0 "close" (UserFn 1) w = (Ret tt, w1) /\
  WebSocket.emit 0 "close" (VNum 1000) (VStr "bye") w1 =
    (Ret tt, with_trace [Called 1 [VNum 1000; VStr "bye"]] w1).
Proof.
  intros w w1.
  assert (Hev : In "close" common_events) by (do 2 right; left; reflexivity).
  split; [reflexivity | ].
  split; [reflexivity | ].
  exact (emit_reaches_registered_handler 0%nat (server_ws None) "close" 1 (VNum 1000)
           (VStr "bye") w w1 eq_refl (or_introl Hev) eq_refl).
Defined.

(** X20.  [removeAllListeners(name)] for one event resets the handler of
    that event only: the handlers of the other four events stay, and so do,
    whatever the name, the 'error' handler and the connection's handle.  A
    name that is none of the five events changes no handler at all. *)
Theorem removeAllListeners_keeps_other_events w this s name :
  websockets w !! this = Some s ->
  exists s',
    WebSocket.removeAllListeners this name w = (Ret tt, upd this s' w) /\
    external s' = external s /\
    isClient s' = isClient s /\
    slot_of "error" s' = slot_of "error" s /\
    forall ev, In ev common_events -> WebSocket.all_or name ev = false ->
               slot_of ev s' = slot_of ev s.
Proof.
  intros Hs. unfold WebSocket.removeAllListeners, bind.
  rewrite (when_update_ws _ _ _ _ _ Hs).
  do 4 rewrite (when_update_ws _ _ _ _ _ (upd_at _ _ _ _ Hs)), upd_upd.
  eexists. split; [reflexivity | ].
  split; [split_ifs; reflexivity | ].
  split; [split_ifs; reflexivity | ].
  split; [split_ifs; reflexivity | ].
  intros ev Hev Hall. each_common_event Hev; rewrite Hall.
  all: split_ifs; reflexivity.
Qed.

Lemma removeAllListeners_keeps_other_events_witness :
  let s := set_internalOnMessage (Some (UserFn 1))
             (set_internalOnClose (Some (UserFn 2)) (server_ws (Some 7%nat))) in
  let w := world_of [s] in
  exists s',
    WebSocket.removeAllListeners 0 (Some "message") w = (Ret tt, upd 0 s' w) /\
    external s' = Some 7%nat /\
    slot_of "message" s' = Some Noop /\
    slot_of "close" s' = Some (UserFn 2).
Proof.
  intros s w.
  destruct (removeAllListeners_keeps_other_events w 0%nat s (Some "message") eq_refl)
    as (s' & Hrun & He & _ & _ & Hkeep).
  exists s'. split; [exact Hrun | ]. split; [exact He | ].
  assert (Hs' : s' = set_internalOnMessage (Some Noop) s).
  { assert (H := Hrun). vm_compute in H. injection H as H.
    destruct s'. vm_compute. now injection H as <- <- <- <- <- <- <- <-. }
  split; [now rewrite Hs' | ].
  rewrite (Hkeep "close"); [reflexivity | do 2 right; left; reflexivity | reflexivity].
Defined.
